(** * Verification of the youtube-kol-search database bootstrapper

    Shallow embedding of [scripts/init_database.py]: the MySQL schema it
    creates (tables, keys, enums, foreign keys), a small model of the
    statements it executes against the server, and the Python control flow
    of [create_database], [create_tables], [add_foreign_keys],
    [seed_initial_data], [create_schema_version_table] and [main].

    The credential pool, the task orchestrator and the analysis scheduler
    of the spec have no code in the repository; they are modelled from the
    spec in clearly marked definitions. *)

From Stdlib Require Import String List ZArith Bool Lia.
Import ListNotations.
Open Scope string_scope.
Open Scope Z_scope.

(* ------------------------------------------------------------------ *)
(** ** SQL values and rows *)

(** A stored value.  [VStr] compares by exact equality; the server's
    utf8mb4_unicode_ci collation compares case-insensitively, which only
    makes its unique checks stricter than the model's. *)
Inductive value : Type :=
| VNull
| VInt (z : Z)
| VStr (s : string)
| VTime (t : Z).

Definition value_eqb (a b : value) : bool :=
  match a, b with
  | VNull, VNull => true
  | VInt x, VInt y => Z.eqb x y
  | VStr x, VStr y => String.eqb x y
  | VTime x, VTime y => Z.eqb x y
  | _, _ => false
  end.

(** A row: column name to value; a missing column reads as NULL. *)
Definition row := list (string * value).

Fixpoint get (r : row) (c : string) : value :=
  match r with
  | [] => VNull
  | (k, v) :: r' => if String.eqb k c then v else get r' c
  end.

(** [UPDATE ... SET c = v] on one row: the column keeps its place. *)
Definition set_col (c : string) (v : value) (r : row) : row :=
  map (fun kv => if String.eqb (fst kv) c then (c, v) else kv) r.

(* ------------------------------------------------------------------ *)
(** ** Table definitions (CREATE TABLE) *)

Inductive coltype : Type :=
| TInt | TBigint | TFloat | TBoolean | TText | TJson | TDate | TTimestamp
| TVarchar (n : Z)
| TEnum (vals : list string).

Record column : Type := mkColumn {
  col_name : string;
  col_type : coltype;
  col_nullable : bool;     (* false for NOT NULL and PRIMARY KEY *)
  col_unique : bool;       (* column-level UNIQUE *)
  col_primary : bool;      (* column-level PRIMARY KEY *)
  col_autoinc : bool       (* AUTO_INCREMENT *)
}.

(** Table-level key clauses.  Prefix lengths and DESC orderings of index
    columns are not modelled. *)
Inductive tkey : Type :=
| KIndex (name : string) (cols : list string)
| KUnique (name : string) (cols : list string)
| KFulltext (name : string) (cols : list string).

Record table_def : Type := mkTable {
  tbl_name : string;
  tbl_cols : list column;
  tbl_keys : list tkey
}.

Definition col (n : string) (t : coltype) : column :=
  mkColumn n t true false false false.
Definition not_null (c : column) : column :=
  mkColumn (col_name c) (col_type c) false (col_unique c) (col_primary c) (col_autoinc c).
Definition unique (c : column) : column :=
  mkColumn (col_name c) (col_type c) (col_nullable c) true (col_primary c) (col_autoinc c).
(** [id INT PRIMARY KEY AUTO_INCREMENT] *)
Definition pk_autoinc (n : string) : column :=
  mkColumn n TInt false false true true.
(** [version INT PRIMARY KEY] *)
Definition pk (n : string) (t : coltype) : column :=
  mkColumn n t false false true false.

(** The unique constraints a table enforces: the primary key, every
    column-level UNIQUE and every UNIQUE KEY, with MySQL's key names. *)
Definition unique_keys (t : table_def) : list (string * list string) :=
  map (fun c => (if col_primary c then "PRIMARY" else col_name c, [col_name c]))
      (filter (fun c => col_primary c || col_unique c) (tbl_cols t))
  ++ flat_map (fun k => match k with KUnique n cs => [(n, cs)] | _ => [] end)
              (tbl_keys t).

Definition autoinc_col (t : table_def) : option string :=
  match filter col_autoinc (tbl_cols t) with
  | c :: _ => Some (col_name c)
  | [] => None
  end.

Definition find_col (t : table_def) (n : string) : option column :=
  find (fun c => String.eqb (col_name c) n) (tbl_cols t).

(* ------------------------------------------------------------------ *)
(** ** The schema of [create_tables] and [create_schema_version_table] *)

Definition search_tasks : table_def := mkTable "search_tasks"
  [ pk_autoinc "id";
    not_null (unique (col "task_id" (TVarchar 64)));
    not_null (col "keyword" (TVarchar 255));
    col "product_info" TText;
    col "status" (TEnum ["pending"; "running"; "completed"; "failed"; "paused"]);
    col "total_channels" TInt;
    col "processed_channels" TInt;
    col "is_incremental" TBoolean;
    col "parent_task_id" (TVarchar 64);
    col "new_channels_count" TInt;
    col "accelerated_mode" TBoolean;
    col "error_message" TText;
    col "created_at" TTimestamp;
    col "started_at" TTimestamp;
    col "completed_at" TTimestamp ]
  [ KIndex "idx_keyword" ["keyword"];
    KIndex "idx_status" ["status"];
    KIndex "idx_created" ["created_at"];
    KIndex "idx_parent" ["parent_task_id"] ].

Definition channels : table_def := mkTable "channels"
  [ pk_autoinc "id";
    not_null (unique (col "channel_id" (TVarchar 64)));
    not_null (col "channel_title" (TVarchar 255));
    not_null (col "channel_url" (TVarchar 512));
    col "subscriber_count" TBigint;
    col "description" TText;
    col "detected_language" (TVarchar 10);
    col "language_confidence" TFloat;
    col "custom_url" (TVarchar 255);
    col "thumbnail_url" (TVarchar 512);
    not_null (col "first_discovered_at" TTimestamp);
    not_null (col "last_seen_at" TTimestamp);
    col "status" (TEnum ["active"; "disappeared"; "deleted"; "private"]);
    col "created_at" TTimestamp;
    col "updated_at" TTimestamp ]
  [ KIndex "idx_channel_id" ["channel_id"];
    KIndex "idx_language" ["detected_language"];
    KIndex "idx_subscribers" ["subscriber_count"];
    KIndex "idx_status" ["status"];
    KIndex "idx_last_seen" ["last_seen_at"];
    KFulltext "ft_title_desc" ["channel_title"; "description"] ].

Definition channel_video_stats : table_def := mkTable "channel_video_stats"
  [ pk_autoinc "id";
    not_null (col "channel_id" (TVarchar 64));
    not_null (col "task_id" (TVarchar 64));
    col "avg_view_count" TBigint;
    col "avg_like_count" TInt;
    col "avg_comment_count" TInt;
    col "avg_engagement_rate" TFloat;
    col "has_outliers" TBoolean;
    col "outlier_videos" TJson;
    not_null (col "recent_videos" TJson);
    col "video_languages" TJson;
    col "created_at" TTimestamp ]
  [ KIndex "idx_channel_task" ["channel_id"; "task_id"];
    KIndex "idx_engagement" ["avg_engagement_rate"];
    KIndex "idx_views" ["avg_view_count"] ].

Definition ai_analysis : table_def := mkTable "ai_analysis"
  [ pk_autoinc "id";
    not_null (col "channel_id" (TVarchar 64));
    not_null (col "task_id" (TVarchar 64));
    col "relevance_score" TInt;
    col "audience_match" TText;
    col "content_alignment" TText;
    col "recommendation" TText;
    col "key_strengths" TJson;
    col "concerns" TJson;
    not_null (col "analysis_detail" TJson);
    col "ai_provider" (TVarchar 20);
    col "analysis_status" (TEnum ["pending"; "processing"; "completed"; "failed"]);
    col "error_message" TText;
    col "analyzed_at" TTimestamp;
    col "created_at" TTimestamp ]
  [ KIndex "idx_channel_task" ["channel_id"; "task_id"];
    KIndex "idx_score" ["relevance_score"];
    KIndex "idx_status" ["analysis_status"];
    KIndex "idx_provider" ["ai_provider"];
    KUnique "uk_channel_task" ["channel_id"; "task_id"] ].

(** [UNIQUE KEY uk_api_key (api_key(255))] is modelled on the whole column. *)
Definition api_keys : table_def := mkTable "api_keys"
  [ pk_autoinc "id";
    not_null (col "api_key" (TVarchar 512));
    not_null (col "api_type" (TEnum ["youtube"; "deepseek"; "zhipu"]));
    col "display_name" (TVarchar 100);
    col "daily_quota" TInt;
    col "used_quota" TInt;
    col "last_reset_date" TDate;
    col "is_active" TBoolean;
    col "priority" TInt;
    col "notes" TText;
    col "created_at" TTimestamp;
    col "updated_at" TTimestamp ]
  [ KIndex "idx_type_active" ["api_type"; "is_active"];
    KIndex "idx_quota" ["used_quota"; "daily_quota"];
    KIndex "idx_priority" ["priority"];
    KUnique "uk_api_key" ["api_key"] ].

Definition product_config : table_def := mkTable "product_config"
  [ pk_autoinc "id";
    not_null (col "product_name" (TVarchar 255));
    col "product_url" (TVarchar 512);
    col "product_description" TText;
    col "core_features" TJson;
    col "target_audience" TText;
    col "keywords" TJson;
    col "auto_scraped_content" TText;
    col "last_scraped_at" TTimestamp;
    col "is_active" TBoolean;
    col "created_at" TTimestamp;
    col "updated_at" TTimestamp ]
  [ KIndex "idx_active" ["is_active"];
    KFulltext "ft_description" ["product_description"; "auto_scraped_content"] ].

Definition schema_migrations : table_def := mkTable "schema_migrations"
  [ pk "version" TInt;
    col "description" (TVarchar 255);
    col "applied_at" TTimestamp ]
  [].

(** The [tables] dict of [create_tables], in its insertion order. *)
Definition tables : list table_def :=
  [search_tasks; channels; channel_video_stats; ai_analysis; api_keys; product_config].

(** Foreign keys: [ON DELETE SET NULL] or [ON DELETE CASCADE]. *)
Inductive on_delete : Type := SetNull | Cascade.

Record fkey : Type := mkFkey {
  fk_name : string;
  fk_child : string;
  fk_child_col : string;
  fk_parent : string;
  fk_parent_col : string;
  fk_on_delete : on_delete
}.

(** The [constraints] list of [add_foreign_keys], in order. *)
Definition constraints : list fkey :=
  [ mkFkey "fk_parent_task" "search_tasks" "parent_task_id" "search_tasks" "task_id" SetNull;
    mkFkey "fk_stats_channel" "channel_video_stats" "channel_id" "channels" "channel_id" Cascade;
    mkFkey "fk_stats_task" "channel_video_stats" "task_id" "search_tasks" "task_id" Cascade;
    mkFkey "fk_analysis_channel" "ai_analysis" "channel_id" "channels" "channel_id" Cascade;
    mkFkey "fk_analysis_task" "ai_analysis" "task_id" "search_tasks" "task_id" Cascade ].

(* ------------------------------------------------------------------ *)
(** ** Table contents and row-level statements *)

Inductive sql_result (A : Type) : Type :=
| Ok (a : A)
| Err (msg : string).
Arguments Ok {A} a.
Arguments Err {A} msg.

(** The rows of a table and its AUTO_INCREMENT counter. *)
Record tstate : Type := mkTstate {
  ts_def : table_def;
  ts_rows : list row;
  ts_next : Z
}.

Definition empty_table (t : table_def) : tstate := mkTstate t [] 1.

(** SQL equality: NULL equals nothing. *)
Definition sql_eq (a b : value) : bool :=
  match a with VNull => false | _ => value_eqb a b end.

(** Two rows clash on a unique key when they agree, non-NULL, on all its
    columns (MySQL lets several rows hold NULL in a unique key). *)
Definition clash (ks : list string) (a b : row) : bool :=
  forallb (fun c => sql_eq (get a c) (get b c)) ks.

(** The first unique key of the table on which [r] clashes with a stored row. *)
Definition find_clash (ts : tstate) (r : row) : option string :=
  option_map fst
    (find (fun k => existsb (fun old => clash (snd k) old r) (ts_rows ts))
          (unique_keys (ts_def ts))).

(** AUTO_INCREMENT: a row without an integer id gets the counter's value;
    an explicit id moves the counter past it. *)
Definition assign_id (ts : tstate) (r : row) : row * Z :=
  match autoinc_col (ts_def ts) with
  | Some a =>
      match get r a with
      | VInt v => (r, Z.max (ts_next ts) (v + 1))
      | _ => ((a, VInt (ts_next ts)) :: r, ts_next ts + 1)
      end
  | None => (r, ts_next ts)
  end.

Definition dup_msg (k : string) : string :=
  "1062 (23000): Duplicate entry for key '" ++ k ++ "'".

(** [INSERT INTO t VALUES r]: appended, or refused on a unique clash.
    Returns the new contents and the row as stored. *)
Definition insert_row (ts : tstate) (r : row) : sql_result (tstate * row) :=
  let '(r', n') := assign_id ts r in
  match find_clash ts r' with
  | Some k => Err (dup_msg k)
  | None => Ok (mkTstate (ts_def ts) (ts_rows ts ++ [r']) n', r')
  end.

Definition map_rows (f : row -> row) (ts : tstate) : tstate :=
  mkTstate (ts_def ts) (map f (ts_rows ts)) (ts_next ts).

Definition filter_rows (p : row -> bool) (ts : tstate) : tstate :=
  mkTstate (ts_def ts) (filter p (ts_rows ts)) (ts_next ts).

(** Update the first row satisfying [p]. *)
Fixpoint update_first (p : row -> bool) (f : row -> row) (rs : list row) : list row :=
  match rs with
  | [] => []
  | r :: rs' => if p r then f r :: rs' else r :: update_first p f rs'
  end.

(* ------------------------------------------------------------------ *)
(** ** Databases and the server *)

Fixpoint lookup {A : Type} (k : string) (l : list (string * A)) : option A :=
  match l with
  | [] => None
  | (k', a) :: l' => if String.eqb k' k then Some a else lookup k l'
  end.

Definition update_at {A : Type} (k : string) (f : A -> A) (l : list (string * A))
  : list (string * A) :=
  map (fun ka => if String.eqb (fst ka) k then (fst ka, f (snd ka)) else ka) l.

Record database : Type := mkDatabase {
  db_tables : list (string * tstate);
  db_fks : list fkey
}.

(** The server: its databases, the connection's current database
    ([connection.database]) and the clock read by CURRENT_TIMESTAMP. *)
Record server : Type := mkServer {
  srv_dbs : list (string * database);
  srv_cur : option string;
  srv_clock : Z
}.

Definition cur_db (s : server) : option (string * database) :=
  match srv_cur s with
  | Some n => option_map (fun d => (n, d)) (lookup n (srv_dbs s))
  | None => None
  end.

Definition put_db (s : server) (n : string) (d : database) : server :=
  mkServer (update_at n (fun _ => d) (srv_dbs s)) (srv_cur s) (srv_clock s).

Definition with_tables (d : database) (ts : list (string * tstate)) : database :=
  mkDatabase ts (db_fks d).

(** [ON DELETE] actions, run for every deleted parent row.  [fuel] bounds
    the depth of the cascade. *)
Fixpoint delete_where (fuel : nat) (fks : list fkey) (tbl c : string) (v : value)
    (ts : list (string * tstate)) : list (string * tstate) :=
  match fuel with
  | O => ts
  | S fuel' =>
      match lookup tbl ts with
      | None => ts
      | Some t =>
          let victims := filter (fun r => sql_eq (get r c) v) (ts_rows t) in
          let ts1 := update_at tbl (filter_rows (fun r => negb (sql_eq (get r c) v))) ts in
          fold_left
            (fun acc fk =>
               if String.eqb (fk_parent fk) tbl then
                 fold_left
                   (fun acc2 key =>
                      match fk_on_delete fk with
                      | SetNull =>
                          update_at (fk_child fk)
                            (map_rows (fun r => if sql_eq (get r (fk_child_col fk)) key
                                                then set_col (fk_child_col fk) VNull r
                                                else r)) acc2
                      | Cascade =>
                          delete_where fuel' fks (fk_child fk) (fk_child_col fk) key acc2
                      end)
                   (map (fun r => get r (fk_parent_col fk)) victims) acc
               else acc)
            fks ts1
      end
  end.

(** The statements [init_database.py] sends through [cursor.execute], plus
    [DELETE] (for the foreign-key contract) and the [connection.database]
    switch. *)
Inductive stmt : Type :=
| CreateDatabase (name : string)                 (* CREATE DATABASE IF NOT EXISTS *)
| UseDatabase (name : string)                    (* connection.database = name *)
| CreateTable (t : table_def)                    (* CREATE TABLE IF NOT EXISTS *)
| AddForeignKey (fk : fkey)                      (* ALTER TABLE ... ADD CONSTRAINT *)
| InsertOnDupUpdate (tbl : string) (r : row) (touch : list string)
                      (* INSERT ... ON DUPLICATE KEY UPDATE c = CURRENT_TIMESTAMP *)
| InsertIgnore (tbl : string) (rs : list row)    (* INSERT IGNORE ... VALUES ... *)
| DeleteWhere (tbl c : string) (v : value)       (* DELETE FROM tbl WHERE c = v *)
| Commit.

Definition no_table_msg (t : string) : string :=
  "1146 (42S02): Table '" ++ t ++ "' doesn't exist".

(** Every non-NULL child value has a parent row. *)
Definition fk_holds (fk : fkey) (ts : list (string * tstate)) : bool :=
  match lookup (fk_child fk) ts, lookup (fk_parent fk) ts with
  | Some c, Some p =>
      forallb (fun r => match get r (fk_child_col fk) with
                        | VNull => true
                        | v => existsb (fun pr => sql_eq (get pr (fk_parent_col fk)) v)
                                       (ts_rows p)
                        end) (ts_rows c)
  | _, _ => false
  end.

Definition add_fk (fk : fkey) (d : database) : sql_result database :=
  match lookup (fk_child fk) (db_tables d), lookup (fk_parent fk) (db_tables d) with
  | None, _ => Err (no_table_msg (fk_child fk))
  | _, None => Err ("1824 (HY000): Failed to open the referenced table '"
                    ++ fk_parent fk ++ "'")
  | Some _, Some _ =>
      if existsb (fun f => String.eqb (fk_name f) (fk_name fk)) (db_fks d)
      then Err ("1826 (HY000): Duplicate foreign key constraint name '"
                ++ fk_name fk ++ "'")
      else if fk_holds fk (db_tables d)
      then Ok (mkDatabase (db_tables d) (db_fks d ++ [fk]))
      else Err "1452 (23000): Cannot add or update a child row: a foreign key constraint fails"
  end.

Definition insert_on_dup (clock : Z) (r : row) (touch : list string) (t : tstate) : tstate :=
  match insert_row t r with
  | Ok (t', _) => t'
  | Err _ =>
      let r' := fst (assign_id t r) in
      mkTstate (ts_def t)
        (update_first (fun old => existsb (fun k => clash (snd k) old r')
                                          (unique_keys (ts_def t)))
           (fun old => fold_left (fun acc c => set_col c (VTime clock) acc) touch old)
           (ts_rows t))
        (ts_next t)
  end.

(** INSERT IGNORE: a row refused by a unique key is skipped. *)
Definition insert_ignore (rs : list row) (t : tstate) : tstate :=
  fold_left (fun acc r => match insert_row acc r with
                          | Ok (acc', _) => acc'
                          | Err _ => acc
                          end) rs t.

(** Apply [f] to the current database, if one is selected. *)
Definition on_cur (s : server) (f : database -> sql_result database) : sql_result server :=
  match cur_db s with
  | None => Err "1046 (3D000): No database selected"
  | Some (n, d) =>
      match f d with
      | Ok d' => Ok (put_db s n d')
      | Err m => Err m
      end
  end.

Definition on_table (tbl : string) (f : tstate -> tstate) (d : database)
  : sql_result database :=
  match lookup tbl (db_tables d) with
  | None => Err (no_table_msg tbl)
  | Some _ => Ok (with_tables d (update_at tbl f (db_tables d)))
  end.

Definition exec_sql (st : stmt) (s : server) : sql_result server :=
  match st with
  | CreateDatabase n =>
      match lookup n (srv_dbs s) with
      | Some _ => Ok s
      | None => Ok (mkServer (srv_dbs s ++ [(n, mkDatabase [] [])]) (srv_cur s) (srv_clock s))
      end
  | UseDatabase n =>
      match lookup n (srv_dbs s) with
      | Some _ => Ok (mkServer (srv_dbs s) (Some n) (srv_clock s))
      | None => Err ("1049 (42000): Unknown database '" ++ n ++ "'")
      end
  | CreateTable t =>
      on_cur s (fun d => match lookup (tbl_name t) (db_tables d) with
                         | Some _ => Ok d
                         | None => Ok (with_tables d (db_tables d ++ [(tbl_name t, empty_table t)]))
                         end)
  | AddForeignKey fk => on_cur s (add_fk fk)
  | InsertOnDupUpdate tbl r touch => on_cur s (on_table tbl (insert_on_dup (srv_clock s) r touch))
  | InsertIgnore tbl rs => on_cur s (on_table tbl (insert_ignore rs))
  | DeleteWhere tbl c v =>
      on_cur s (fun d => match lookup tbl (db_tables d) with
                         | None => Err (no_table_msg tbl)
                         | Some _ => Ok (with_tables d
                                           (delete_where (S (length (db_fks d))) (db_fks d)
                                                         tbl c v (db_tables d)))
                         end)
  | Commit => Ok s
  end.

(* ------------------------------------------------------------------ *)
(** ** The Python layer: exceptions, logging and [cursor.execute] *)

Inductive log_entry : Type :=
| LInfo (m : string)
| LWarning (m : string)
| LError (m : string).

Record pstate : Type := mkPstate {
  ps_srv : server;
  ps_log : list log_entry
}.

(** A Python computation either returns or raises a [mysql.connector.Error]
    carrying [str(e)]; effects made before the raise are kept. *)
Inductive outcome (A : Type) : Type :=
| Ret (a : A)
| Raise (e : string).
Arguments Ret {A} a.
Arguments Raise {A} e.

Definition M (A : Type) : Type := pstate -> outcome A * pstate.

Definition ret {A} (a : A) : M A := fun st => (Ret a, st).
Definition raise {A} (e : string) : M A := fun st => (Raise e, st).
Definition bind {A B} (m : M A) (k : A -> M B) : M B :=
  fun st => match m st with
            | (Ret a, st') => k a st'
            | (Raise e, st') => (Raise e, st')
            end.
(** [try: m except Error as e: h(e)] *)
Definition try_except {A} (m : M A) (h : string -> M A) : M A :=
  fun st => match m st with
            | (Ret a, st') => (Ret a, st')
            | (Raise e, st') => h e st'
            end.

Notation "x <- c1 ;; c2" := (bind c1 (fun x => c2))
  (at level 61, c1 at next level, right associativity).
Notation "c1 ;; c2" := (bind c1 (fun _ => c2)) (at level 61, right associativity).

Definition log (e : log_entry) : M unit :=
  fun st => (Ret tt, mkPstate (ps_srv st) (ps_log st ++ [e])).
Definition info (m : string) : M unit := log (LInfo m).
Definition warning (m : string) : M unit := log (LWarning m).
Definition error (m : string) : M unit := log (LError m).

Fixpoint for_each {A} (l : list A) (body : A -> M unit) : M unit :=
  match l with
  | [] => ret tt
  | x :: l' => body x ;; for_each l' body
  end.

(** Python's [p in s] on strings. *)
Fixpoint prefixb (p s : string) : bool :=
  match p, s with
  | EmptyString, _ => true
  | String a p', String b s' => Ascii.eqb a b && prefixb p' s'
  | String _ _, EmptyString => false
  end.

Fixpoint contains (p s : string) : bool :=
  prefixb p s || match s with
                 | EmptyString => false
                 | String _ s' => contains p s'
                 end.

(** A JSON array of strings, as written in the SQL text: [["a", "b"]]. *)
Definition dq : string := String (Ascii.ascii_of_nat 34) EmptyString.
Definition json_list (l : list string) : string :=
  "[" ++ String.concat ", " (map (fun x => dq ++ x ++ dq) l) ++ "]".

(** The seeded product row of [seed_initial_data]. *)
Definition seed_row : row :=
  [ ("product_name", VStr "WMaster Cleanup");
    ("product_url", VStr "https://www.wmastercleanup.com/");
    ("product_description", VStr "All-in-One Windows Cleaner & Optimizer for cleaning junk files, freeing disk space, and improving PC performance");
    ("core_features", VStr (json_list ["Disk cleanup"; "Duplicate file removal"; "Application uninstaller"; "Cache clearing"; "Privacy protection"]));
    ("target_audience", VStr "Windows users who want to optimize PC performance, free up disk space, and maintain system health");
    ("keywords", VStr (json_list ["PC cleanup"; "Windows optimizer"; "disk cleaner"; "system speedup"; "junk file removal"]));
    ("is_active", VInt 1) ].

(** The rows of the INSERT IGNORE of [create_schema_version_table]. *)
Definition migration_rows : list row :=
  [ [("version", VInt 1); ("description", VStr "Initial schema")];
    [("version", VInt 2); ("description", VStr "Add incremental update support")];
    [("version", VInt 3); ("description", VStr "Add AI provider field")];
    [("version", VInt 4); ("description", VStr "Add language detection confidence")] ].

Section Bootstrap.

(** The server's answer to [cursor.execute]: the concrete [exec_sql], or
    any other behaviour when a statement is to be studied for every answer. *)
Variable exec : stmt -> server -> sql_result server.

Definition execute (s : stmt) : M unit :=
  fun st => match exec s (ps_srv st) with
            | Ok srv' => (Ret tt, mkPstate srv' (ps_log st))
            | Err e => (Raise e, st)
            end.

Definition create_database (database_name : string) : M unit :=
  try_except
    (execute (CreateDatabase database_name) ;;
     info ("Database '" ++ database_name ++ "' ready"))
    (fun e => error ("Failed to create database: " ++ e) ;; raise e).

Definition create_tables : M unit :=
  for_each tables (fun t =>
    try_except
      (execute (CreateTable t) ;; info ("Table '" ++ tbl_name t ++ "' created"))
      (fun e => error ("Failed to create table '" ++ tbl_name t ++ "': " ++ e) ;; raise e)).

(** The body of the [for constraint_sql in constraints] loop. *)
Definition add_foreign_key (fk : fkey) : M unit :=
  try_except
    (execute (AddForeignKey fk) ;; info "Foreign key constraint added")
    (fun e => if negb (contains "Duplicate" e)
              then warning ("Constraint warning: " ++ e)
              else ret tt).

Definition add_foreign_keys : M unit := for_each constraints add_foreign_key.

Definition seed_initial_data : M unit :=
  try_except
    (execute (InsertOnDupUpdate "product_config" seed_row ["updated_at"]) ;;
     info "Default product config seeded")
    (fun e => warning ("Product config already exists or error: " ++ e)) ;;
  execute Commit.

Definition create_schema_version_table : M unit :=
  execute (CreateTable schema_migrations) ;;
  execute (InsertIgnore "schema_migrations" migration_rows) ;;
  info "Schema version tracking ready" ;;
  execute Commit.

(** [main] once the connection is open; returns the process exit status
    ([sys.exit(1)] in the handler, 0 otherwise). *)
Definition main (database : string) : M Z :=
  try_except
    (info "Connected to MySQL server" ;;
     create_database database ;;
     execute (UseDatabase database) ;;
     info "Creating tables..." ;;
     create_tables ;;
     info "Adding foreign key constraints..." ;;
     add_foreign_keys ;;
     info "Seeding initial data..." ;;
     seed_initial_data ;;
     info "Setting up schema versioning..." ;;
     create_schema_version_table ;;
     info "Database initialization completed successfully!" ;;
     info ("Database: " ++ database) ;;
     info "Next steps:" ;;
     info "1. Copy .env.example to .env" ;;
     info "2. Add your API keys via the web interface" ;;
     info "3. Start the application with: docker-compose up -d" ;;
     ret 0)
    (fun e => error ("Database initialization failed: " ++ e) ;; ret 1).

End Bootstrap.

(** A fresh server with no database. *)
Definition fresh_server : server := mkServer [] None 0.

Definition run_main (s : server) : Z * server :=
  match main exec_sql "youtube_kol_db" (mkPstate s []) with
  | (Ret z, st) => (z, ps_srv st)
  | (Raise _, st) => (1, ps_srv st)
  end.

Definition rows_of (s : server) (tbl : string) : list row :=
  match cur_db s with
  | Some (_, d) => match lookup tbl (db_tables d) with
                   | Some t => ts_rows t
                   | None => []
                   end
  | None => []
  end.

(* ------------------------------------------------------------------ *)
(** ** Table states reachable through the schema *)

(** The columns the table's unique constraints read. *)
Definition key_cols (t : table_def) : list string := flat_map snd (unique_keys t).

(** Contents a table can reach through statements: inserts the server
    accepts, deletes (also cascaded ones), and updates that leave the
    unique-key and AUTO_INCREMENT columns alone (such as the cascaded
    [SET NULL] of [fk_parent_task] and the channel merge of the spec). *)
Inductive treach (t : table_def) : tstate -> Prop :=
| tr_empty : treach t (empty_table t)
| tr_insert : forall ts r ts' r',
    treach t ts -> insert_row ts r = Ok (ts', r') -> treach t ts'
| tr_delete : forall ts p, treach t ts -> treach t (filter_rows p ts)
| tr_update : forall ts f,
    treach t ts ->
    (forall r c, In c (key_cols t) \/ autoinc_col t = Some c -> get (f r) c = get r c) ->
    treach t (map_rows f ts).

(* ------------------------------------------------------------------ *)
(** ** Analysis Coordinator (no code in the repository) *)

Definition pair_match (c t : string) (r : row) : bool :=
  sql_eq (get r "channel_id") (VStr c) && sql_eq (get r "task_id") (VStr t).

Definition find_pair (c t : string) (rows : list row) : option value :=
  option_map (fun r => get r "id") (find (pair_match c t) rows).

(** Modelled from the spec: [schedule(channel_id, task_id)] of the Analysis
    Coordinator (spec 4.4 and 5), absent from the repository.  A scheduler
    looks the pair up and returns the row it finds; otherwise it inserts a
    [pending] row; a caller whose insert is refused by the unique key reads
    the winner's row.  Each step is one statement, so two schedulers may
    interleave between them. *)
Inductive sched_pc : Type :=
| SLookup
| SInsert
| SReread
| SDone (id : value).

Definition new_analysis_row (c t : string) : row :=
  [("channel_id", VStr c); ("task_id", VStr t);
   ("analysis_detail", VStr "{}"); ("analysis_status", VStr "pending")].

Definition sched_step (c t : string) (ts : tstate) (pc : sched_pc) : tstate * sched_pc :=
  match pc with
  | SLookup => match find_pair c t (ts_rows ts) with
               | Some i => (ts, SDone i)
               | None => (ts, SInsert)
               end
  | SInsert => match insert_row ts (new_analysis_row c t) with
               | Ok (ts', r) => (ts', SDone (get r "id"))
               | Err _ => (ts, SReread)
               end
  | SReread => match find_pair c t (ts_rows ts) with
               | Some i => (ts, SDone i)
               | None => (ts, SLookup)
               end
  | SDone i => (ts, SDone i)
  end.

(** Two schedulers for the same pair; [true] in the schedule lets the
    first one take its next step, [false] the second one. *)
Fixpoint race (c t : string) (sched : list bool) (ts : tstate) (p1 p2 : sched_pc)
  : tstate * sched_pc * sched_pc :=
  match sched with
  | [] => (ts, p1, p2)
  | true :: rest => let '(ts', p1') := sched_step c t ts p1 in race c t rest ts' p1' p2
  | false :: rest => let '(ts', p2') := sched_step c t ts p2 in race c t rest ts' p1 p2'
  end.

Definition steps_of (b : bool) (sched : list bool) : nat :=
  length (filter (Bool.eqb b) sched).

(* ------------------------------------------------------------------ *)
(** ** Channel Registry (no code in the repository) *)

(** [put c v r]: the row [r] with column [c] holding [v]. *)
Definition put (c : string) (v : value) (r : row) : row :=
  (c, v) :: filter (fun kv => negb (String.eqb (fst kv) c)) r.

Definition channel_mutable_fields : list string :=
  ["subscriber_count"; "status"; "channel_title"; "description"; "detected_language"].

Definition merge_channel (now : Z) (data old : row) : row :=
  put "last_seen_at"
      (match get old "last_seen_at" with
       | VTime t0 => VTime (Z.max t0 now)
       | _ => VTime now
       end)
      (fold_left (fun acc f => match get data f with
                              | VNull => acc
                              | v => put f v acc
                              end) channel_mutable_fields old).

(** Modelled from the spec: [upsert_channel(data)] of the Channel Registry
    (spec 4.2 and 5), absent from the repository.  It inserts with
    [first_discovered_at = last_seen_at = now]; when the unique key refuses
    the insert it merges the mutable fields into the stored row and moves
    [last_seen_at] to [max(existing, now)]. *)
Definition upsert_channel (now : Z) (data : row) (ts : tstate) : tstate :=
  match insert_row ts (put "first_discovered_at" (VTime now)
                         (put "last_seen_at" (VTime now) data)) with
  | Ok (ts', _) => ts'
  | Err _ => map_rows (fun old => if sql_eq (get old "channel_id") (get data "channel_id")
                                  then merge_channel now data old else old) ts
  end.

(* ------------------------------------------------------------------ *)
(** ** Search Task Orchestrator (no code in the repository) *)

(** The values of [search_tasks.status]. *)
Inductive task_status : Type := Pending | Running | Completed | Failed | Paused.

Definition task_status_name (s : task_status) : string :=
  match s with
  | Pending => "pending" | Running => "running" | Completed => "completed"
  | Failed => "failed" | Paused => "paused"
  end.

Record task : Type := mkTask {
  task_state : task_status;
  task_error : option string
}.

Inductive orch_op : Type :=
| OStart | OPause | OResume | OComplete | OFail (msg : string).

(** Modelled from the spec: the Orchestrator's transitions (spec 4.3),
    absent from the repository.  [pending -> running] on start (a second
    start is a no-op), [running -> paused] and back, [running -> completed]
    and [running -> failed] with the error message; an operation whose
    guard does not hold leaves the task as it is. *)
Definition orch_apply (op : orch_op) (tk : task) : task :=
  match op, task_state tk with
  | OStart, Pending => mkTask Running (task_error tk)
  | OPause, Running => mkTask Paused (task_error tk)
  | OResume, Paused => mkTask Running (task_error tk)
  | OComplete, Running => mkTask Completed (task_error tk)
  | OFail m, Running => mkTask Failed (Some m)
  | _, _ => tk
  end.

Definition orch_run (ops : list orch_op) (tk : task) : task :=
  fold_left (fun acc op => orch_apply op acc) ops tk.

Definition is_terminal (s : task_status) : bool :=
  match s with Completed | Failed => true | _ => false end.

(** The edges of the lifecycle as the spec lists them. *)
Definition lifecycle_edge (a b : task_status) : bool :=
  match a, b with
  | Pending, Running | Running, Completed | Running, Failed
  | Running, Paused | Paused, Running => true
  | _, _ => false
  end.

(* ------------------------------------------------------------------ *)
(** ** Credential Pool (no code in the repository) *)

(** A row of [api_keys]; dates are day numbers. *)
Record api_key : Type := mkKey {
  key_id : Z;
  api_type : string;
  daily_quota : Z;
  used_quota : Z;
  last_reset_date : option Z;
  is_active : bool;
  priority : Z
}.

Inductive pool_result (A : Type) : Type :=
| Granted (a : A)
| QuotaExhausted.
Arguments Granted {A} a.
Arguments QuotaExhausted {A}.

Definition with_used (k : api_key) (u : Z) (d : option Z) : api_key :=
  mkKey (key_id k) (api_type k) (daily_quota k) u d (is_active k) (priority k).

(** Modelled from the spec: [reset_if_new_day(key)] (spec 3 and 4.1). *)
Definition reset_if_new_day (today : Z) (k : api_key) : api_key :=
  match last_reset_date k with
  | Some d => if d <? today then with_used k 0 (Some today) else k
  | None => with_used k 0 (Some today)
  end.

Definition eligible (provider : string) (k : api_key) : bool :=
  is_active k && String.eqb (api_type k) provider && (used_quota k <? daily_quota k).

(** Highest priority first, then lowest used quota. *)
Definition better (a b : api_key) : bool :=
  (priority b <? priority a)
  || ((priority a =? priority b) && (used_quota a <? used_quota b)).

Definition best (k : api_key) (ks : list api_key) : api_key :=
  fold_left (fun acc x => if better x acc then x else acc) ks k.

(** Modelled from the spec: [acquire(provider)] (spec 4.1).  Every key is
    lazily reset first; among the eligible keys the best is granted. *)
Definition acquire (provider : string) (today : Z) (pool : list api_key)
  : list api_key * pool_result api_key :=
  let pool' := map (reset_if_new_day today) pool in
  match filter (eligible provider) pool' with
  | [] => (pool', QuotaExhausted)
  | k :: ks => (pool', Granted (best k ks))
  end.

(** Modelled from the spec: [record_usage(key, units)] (spec 4.1).  The
    served call is accepted whatever the total: the increment never
    answers [QuotaExhausted]. *)
Definition record_usage (units : Z) (k : api_key) : pool_result api_key :=
  Granted (with_used k (used_quota k + units) (last_reset_date k)).

Definition record_in_pool (id units : Z) (pool : list api_key) : list api_key :=
  map (fun k => if key_id k =? id
                then match record_usage units k with
                     | Granted k' => k'
                     | QuotaExhausted => k
                     end
                else k) pool.

Inductive pool_op : Type :=
| PAcquire (provider : string)
| PRecord (id units : Z).

(** A day of pool operations; returns the final pool and the keys granted. *)
Fixpoint pool_day (today : Z) (ops : list pool_op) (pool : list api_key)
  : list api_key * list api_key :=
  match ops with
  | [] => (pool, [])
  | PAcquire p :: ops' =>
      let '(pool', res) := acquire p today pool in
      let '(fin, granted) := pool_day today ops' pool' in
      (fin, match res with Granted k => k :: granted | QuotaExhausted => granted end)
  | PRecord id u :: ops' => pool_day today ops' (record_in_pool id u pool)
  end.

(* ------------------------------------------------------------------ *)
(** ** Invariant of reachable table states *)

Definition rows_unique (t : table_def) (rows : list row) : Prop :=
  forall k, In k (unique_keys t) -> ForallOrdPairs (fun a b => clash (snd k) a b = false) rows.

Definition ids_below (t : table_def) (ts : tstate) : Prop :=
  forall a, autoinc_col t = Some a ->
  forall r, In r (ts_rows ts) -> exists v, get r a = VInt v /\ v < ts_next ts.

Definition table_wf (t : table_def) (ts : tstate) : Prop :=
  ts_def ts = t /\ rows_unique t (ts_rows ts) /\ ids_below t ts.

(** What a scheduler at [p] knows about the stored rows. *)
Definition pc_ok (c t : string) (rows : list row) (p : sched_pc) : Prop :=
  match p with
  | SDone i => find_pair c t rows = Some i
  | SReread => find_pair c t rows <> None
  | _ => True
  end.

(** Steps a scheduler at [p] still needs. *)
Definition rank (p : sched_pc) : nat :=
  match p with SLookup => 3 | SInsert => 2 | SReread => 1 | SDone _ => 0 end.

(** A server that refuses every [ALTER TABLE ... ADD CONSTRAINT] (as for
    orphaned child rows or mismatched column definitions) and otherwise
    behaves as [exec_sql]. *)
Definition fk_refusing_exec (st : stmt) (s : server) : sql_result server :=
  match st with
  | AddForeignKey _ => Err "1215 (HY000): Cannot add foreign key constraint"
  | _ => exec_sql st s
  end.

(** [n] runs of a step, one after the other. *)
Fixpoint repeat_run (n : nat) (m : M unit) : M unit :=
  match n with
  | O => ret tt
  | S n' => m ;; repeat_run n' m
  end.

Definition version_is (v : Z) (r : row) : bool := sql_eq (get r "version") (VInt v).

Definition units_nonneg (op : pool_op) : Prop :=
  match op with PRecord _ u => 0 <= u | PAcquire _ => True end.

(* ------------------------------------------------------------------ *)
(** ** Auxiliary definitions for the proofs *)

Definition chan_is (c : string) (r : row) : bool := sql_eq (get r "channel_id") (VStr c).

Definition snapshot_row (c t : string) : row :=
  [("channel_id", VStr c); ("task_id", VStr t); ("recent_videos", VStr "[]")].

Definition null_parent (t : string) (r : row) : row :=
  if sql_eq (get r "parent_task_id") (VStr t) then set_col "parent_task_id" VNull r else r.

Definition keep_unless (c : string) (v : value) : tstate -> tstate :=
  filter_rows (fun r => negb (sql_eq (get r c) v)).

(** A bootstrapped server with two tasks (T2 a child of T1), one channel
    and a statistics row and an analysis row for it. *)
Definition demo_server : server :=
  let s0 := snd (run_main fresh_server) in
  let stmts :=
    [ InsertIgnore "search_tasks"
        [ [("task_id", VStr "T1"); ("keyword", VStr "windows cleaner"); ("status", VStr "completed")];
          [("task_id", VStr "T2"); ("keyword", VStr "windows cleaner"); ("status", VStr "running");
           ("is_incremental", VInt 1); ("parent_task_id", VStr "T1")] ];
      InsertIgnore "channels"
        [ [("channel_id", VStr "UC1"); ("channel_title", VStr "Cleaner");
           ("channel_url", VStr "https://www.youtube.com/channel/UC1")] ];
      InsertIgnore "channel_video_stats" [snapshot_row "UC1" "T1"];
      InsertIgnore "ai_analysis" [new_analysis_row "UC1" "T1"] ] in
  fold_left (fun s st => match exec_sql st s with Ok s' => s' | Err _ => s end) stmts s0.

Definition demo_db : database :=
  match cur_db demo_server with Some (_, d) => d | None => mkDatabase [] [] end.

Definition demo_table (tbl : string) : tstate :=
  match lookup tbl (db_tables demo_db) with Some t => t | None => empty_table search_tasks end.

Definition exhausted_today (today id : Z) (pool : list api_key) : Prop :=
  forall k, In k pool -> key_id k = id ->
  last_reset_date k = Some today /\ daily_quota k <= used_quota k.

Definition ledger_ok (ts : tstate) : Prop :=
  treach schema_migrations ts /\
  forall v, 1 <= v <= 4 -> exists r, In r (ts_rows ts) /\ version_is v r = true.

(** The completion line logged by [main]. *)
Definition success_msg : string := "Database initialization completed successfully!".

Definition no_success (l : list log_entry) : Prop := ~ In (LInfo success_msg) l.

(** [m] never logs the completion line. *)
Definition quiet {A} (m : M A) : Prop :=
  forall st, no_success (ps_log st) -> no_success (ps_log (snd (m st))).

(** What [main]'s [try] body ends in: the completion line logged and 0
    returned, or an error raised before the completion line. *)
Definition main_post (o : outcome Z) (st : pstate) : Prop :=
  (o = Ret 0 /\ In (LInfo success_msg) (ps_log st)) \/
  (exists e, o = Raise e /\ no_success (ps_log st)).

(** The current database keeps its tables, and its foreign keys only grow;
    with no database selected the server does not change. *)
Definition fk_ext (s s' : server) : Prop :=
  (cur_db s = None -> s' = s) /\
  forall n d, cur_db s = Some (n, d) ->
  exists d', cur_db s' = Some (n, d') /\ db_tables d' = db_tables d /\ incl (db_fks d) (db_fks d').

(** The tables [create_tables] creates when absent. *)
Definition fresh_tables (l : list table_def) : list (string * tstate) :=
  map (fun t => (tbl_name t, empty_table t)) l.

(* ================================================================== *)
(** * Proofs *)

Section OrdPairs.
Context {A : Type} (R : A -> A -> Prop).

Lemma ForallOrdPairs_snoc (l : list A) (x : A) :
  ForallOrdPairs R l -> Forall (fun y => R y x) l -> ForallOrdPairs R (l ++ [x]).
Proof.
  induction l as [| y l IH]; intros Hp Hf; simpl.
  - constructor; constructor.
  - inversion Hp as [| ? ? Hy Hl]; subst. inversion Hf; subst.
    constructor.
    + apply Forall_app; split; [assumption | constructor; [assumption | constructor]].
    + apply IH; assumption.
Qed.

Lemma ForallOrdPairs_filter (p : A -> bool) (l : list A) :
  ForallOrdPairs R l -> ForallOrdPairs R (filter p l).
Proof.
  induction l as [| y l IH]; intros Hp; simpl; [constructor |].
  inversion Hp as [| ? ? Hy Hl]; subst.
  destruct (p y); [constructor |]; auto.
  apply Forall_forall; intros z Hz. apply filter_In in Hz.
  eapply Forall_forall in Hy; [exact Hy | tauto].
Qed.

Lemma ForallOrdPairs_map (f : A -> A) (l : list A) :
  (forall a b, R a b -> R (f a) (f b)) ->
  ForallOrdPairs R l -> ForallOrdPairs R (map f l).
Proof.
  intros Hf; induction l as [| y l IH]; intros Hp; simpl; [constructor |].
  inversion Hp as [| ? ? Hy Hl]; subst. constructor; auto.
  apply Forall_map. eapply Forall_impl; [| exact Hy]. auto.
Qed.

(** Rows pairwise related by [R] hold at most one row selected by [p]
    when two selected rows are never related. *)
Lemma ForallOrdPairs_at_most_one (p : A -> bool) (l : list A) :
  ForallOrdPairs R l ->
  (forall a b, p a = true -> p b = true -> ~ R a b) ->
  (length (filter p l) <= 1)%nat.
Proof.
  intros Hp Hn; induction Hp as [| y l Hy Hl IH]; simpl; [lia |].
  destruct (p y) eqn:Ey; [| exact IH].
  assert (filter p l = []) as ->; [| simpl; lia].
  destruct (filter p l) as [| z zs] eqn:Ez; [reflexivity |].
  exfalso. assert (Hz : In z (filter p l)) by (rewrite Ez; left; reflexivity).
  apply filter_In in Hz as [Hz Pz].
  eapply Forall_forall in Hy; [| exact Hz]. exact (Hn y z Ey Pz Hy).
Qed.

End OrdPairs.

Lemma value_eqb_refl (v : value) : value_eqb v v = true.
Proof. destruct v; simpl; auto using Z.eqb_refl, String.eqb_refl. Qed.

Lemma value_eqb_eq (a b : value) : value_eqb a b = true -> a = b.
Proof.
  destruct a, b; simpl; intros H; try discriminate; try reflexivity;
    f_equal; first [apply Z.eqb_eq | apply String.eqb_eq]; exact H.
Qed.

Lemma find_clash_none (ts : tstate) (r : row) :
  find_clash ts r = None ->
  forall k, In k (unique_keys (ts_def ts)) ->
  forall old, In old (ts_rows ts) -> clash (snd k) old r = false.
Proof.
  unfold find_clash. intros H k Hk old Hold.
  destruct (find _ _) eqn:Ef; [discriminate |].
  pose proof (find_none _ _ Ef k Hk) as Hx. simpl in Hx.
  destruct (clash (snd k) old r) eqn:Ec; [| reflexivity].
  exfalso. assert (Ht : existsb (fun old0 => clash (snd k) old0 r) (ts_rows ts) = true).
  { apply existsb_exists. exists old; auto. }
  congruence.
Qed.

Lemma find_clash_some (ts : tstate) (r : row) k :
  find_clash ts r = Some k ->
  exists ks old, In (k, ks) (unique_keys (ts_def ts)) /\ In old (ts_rows ts)
                 /\ clash ks old r = true.
Proof.
  unfold find_clash. destruct (find _ _) as [[k' ks] |] eqn:Ef; simpl; [| discriminate].
  intros H; inversion H; subst.
  apply find_some in Ef as [Hin Hex]. simpl in Hex.
  apply existsb_exists in Hex as [old [Hold Hc]]. exists ks, old; auto.
Qed.

Lemma insert_row_ok (ts : tstate) (r : row) ts' r' :
  insert_row ts r = Ok (ts', r') ->
  find_clash ts r' = None /\ ts_rows ts' = (ts_rows ts ++ [r'])%list /\ ts_def ts' = ts_def ts
  /\ assign_id ts r = (r', ts_next ts').
Proof.
  unfold insert_row. destruct (assign_id ts r) as [r0 n0] eqn:Ea.
  destruct (find_clash ts r0) eqn:Ec; [discriminate |].
  intros H; inversion H; subst; simpl; auto.
Qed.

Lemma assign_id_below (t : table_def) (ts : tstate) (r r' : row) n' :
  ts_def ts = t -> ids_below t ts -> assign_id ts r = (r', n') ->
  ts_next ts <= n' /\
  forall a, autoinc_col t = Some a -> exists v, get r' a = VInt v /\ v < n'.
Proof.
  intros Hd Hb. unfold assign_id. rewrite Hd.
  destruct (autoinc_col t) as [a |] eqn:Ea.
  - destruct (get r a) eqn:Eg;
      intros H; inversion H; subst; clear H;
      (split; [lia | intros a' Ha'; inversion Ha'; subst]);
      first [ exists z; split; [assumption | lia]
            | exists (ts_next ts); simpl; rewrite String.eqb_refl; split; [reflexivity | lia] ].
  - intros H; inversion H; subst. split; [lia | discriminate].
Qed.

Lemma clash_sym (ks : list string) (a b : row) : clash ks a b = clash ks b a.
Proof.
  unfold clash. induction ks as [| c ks IH]; simpl; [reflexivity |].
  rewrite IH. f_equal. unfold sql_eq.
  destruct (get a c), (get b c); simpl; try reflexivity;
    first [apply Z.eqb_sym | apply String.eqb_sym].
Qed.

Lemma clash_frame (ks : list string) (f : row -> row) (a b : row) :
  (forall r c, In c ks -> get (f r) c = get r c) ->
  clash ks (f a) (f b) = clash ks a b.
Proof.
  intros Hf. unfold clash. induction ks as [| c ks IH]; simpl; [reflexivity |].
  rewrite !Hf by (left; reflexivity). rewrite IH; [reflexivity |].
  intros r c' Hc'. apply Hf. right; exact Hc'.
Qed.

Lemma in_key_cols (t : table_def) k c :
  In k (unique_keys t) -> In c (snd k) -> In c (key_cols t).
Proof. intros Hk Hc. unfold key_cols. apply in_flat_map. eauto. Qed.

(** Every reachable table state satisfies [table_wf]. *)
Lemma treach_wf (t : table_def) (ts : tstate) : treach t ts -> table_wf t ts.
Proof.
  induction 1 as [| ts r ts' r' Hr [Hd [Hu Hb]] Hins
                  | ts p Hr [Hd [Hu Hb]] | ts f Hr [Hd [Hu Hb]] Hf].
  - split; [reflexivity | split].
    + intros k _. constructor.
    + intros a _ r [].
  - apply insert_row_ok in Hins as [Hc [Hrows [Hdef Ha]]].
    destruct (assign_id_below t ts r r' (ts_next ts') Hd Hb Ha) as [Hle Hnew].
    split; [congruence | split].
    + intros k Hk. rewrite Hrows. apply ForallOrdPairs_snoc; [apply Hu; exact Hk |].
      apply Forall_forall. intros old Hold.
      apply (find_clash_none ts r' Hc); [rewrite Hd; exact Hk | exact Hold].
    + intros a Ha' x Hx. rewrite Hrows in Hx. apply in_app_or in Hx as [Hx | [Hx | []]].
      * destruct (Hb a Ha' x Hx) as [v [Hv Hlt]]. exists v. split; [exact Hv | lia].
      * subst x. apply Hnew; exact Ha'.
  - split; [exact Hd | split].
    + intros k Hk. apply ForallOrdPairs_filter. apply Hu; exact Hk.
    + intros a Ha x Hx. apply filter_In in Hx as [Hx _]. apply (Hb a Ha x Hx).
  - split; [exact Hd | split].
    + intros k Hk. simpl. apply ForallOrdPairs_map; [| apply Hu; exact Hk].
      intros a b Hab. rewrite clash_frame; [exact Hab |].
      intros r0 c Hc. apply Hf. left. eapply in_key_cols; eauto.
    + intros a Ha x Hx. simpl in Hx. apply in_map_iff in Hx as [y [Hy Hin]]. subst x.
      rewrite (Hf y a (or_intror Ha)). apply (Hb a Ha y Hin).
Qed.

(** Two rows holding the same non-NULL values on a unique key cannot
    both be stored. *)
Lemma treach_key_at_most_one (t : table_def) (ts : tstate) k (p : row -> bool) :
  treach t ts -> In k (unique_keys t) ->
  (forall a b, p a = true -> p b = true -> clash (snd k) a b = true) ->
  (length (filter p (ts_rows ts)) <= 1)%nat.
Proof.
  intros Hr Hk Hp. destruct (treach_wf t ts Hr) as [_ [Hu _]].
  apply (ForallOrdPairs_at_most_one _ p _ (Hu k Hk)).
  intros a b Ha Hb Hc. rewrite (Hp a b Ha Hb) in Hc. discriminate.
Qed.

(** ** The scheduler race *)

Lemma sql_eq_eq (a b : value) : sql_eq a b = true -> a = b.
Proof. destruct a; simpl; try discriminate; intros H; apply value_eqb_eq; exact H. Qed.

Lemma find_pair_app (c t : string) (l m : list row) i :
  find_pair c t l = Some i -> find_pair c t (l ++ m)%list = Some i.
Proof.
  unfold find_pair. induction l as [| x l IH]; simpl; [discriminate |].
  destruct (pair_match c t x); [auto | exact IH].
Qed.

Lemma find_pair_none (c t : string) (l : list row) :
  find_pair c t l = None -> forall r, In r l -> pair_match c t r = false.
Proof.
  unfold find_pair. destruct (find (pair_match c t) l) eqn:E; [discriminate |].
  intros _. apply find_none; exact E.
Qed.

Lemma find_pair_snoc (c t : string) (l : list row) x :
  find_pair c t l = None -> pair_match c t x = true ->
  find_pair c t (l ++ [x])%list = Some (get x "id").
Proof.
  unfold find_pair. induction l as [| y l IH]; simpl; intros H Hx.
  - rewrite Hx. reflexivity.
  - destruct (pair_match c t y); [discriminate | apply IH; assumption].
Qed.

Lemma find_pair_count (c t : string) (l : list row) i :
  find_pair c t l = Some i -> (1 <= length (filter (pair_match c t) l))%nat.
Proof.
  unfold find_pair. induction l as [| x l IH]; simpl; [discriminate |].
  destruct (pair_match c t x); simpl; [lia | exact IH].
Qed.

Lemma pair_match_clash (c t : string) (a b : row) :
  pair_match c t a = true -> pair_match c t b = true ->
  clash ["channel_id"; "task_id"] a b = true.
Proof.
  unfold pair_match, clash. intros Ha Hb.
  apply andb_prop in Ha as [Ha1 Ha2]. apply andb_prop in Hb as [Hb1 Hb2].
  apply sql_eq_eq in Ha1, Ha2, Hb1, Hb2. simpl.
  rewrite Ha1, Ha2, Hb1, Hb2. simpl. rewrite !String.eqb_refl. reflexivity.
Qed.

Lemma pc_ok_app (c t : string) (l m : list row) p :
  pc_ok c t l p -> pc_ok c t (l ++ m)%list p.
Proof.
  destruct p; simpl; auto using find_pair_app.
  intros H E. destruct (find_pair c t l) eqn:F; [| contradiction H; reflexivity].
  rewrite (find_pair_app c t l m v F) in E. discriminate.
Qed.

(** One step of one scheduler keeps the table reachable and both
    schedulers' knowledge true, and brings the stepping one closer to done. *)
Lemma sched_step_ok (c t : string) (ts : tstate) (p q : sched_pc) :
  treach ai_analysis ts -> pc_ok c t (ts_rows ts) p -> pc_ok c t (ts_rows ts) q ->
  let '(ts', p') := sched_step c t ts p in
  treach ai_analysis ts' /\ pc_ok c t (ts_rows ts') p' /\ pc_ok c t (ts_rows ts') q
  /\ (rank p' <= pred (rank p))%nat.
Proof.
  intros Hr Hp Hq. destruct (treach_wf _ _ Hr) as [Hd [Hu Hb]].
  destruct p as [| | | i]; simpl.
  - destruct (find_pair c t (ts_rows ts)) eqn:F; simpl; repeat split; auto.
  - destruct (insert_row ts (new_analysis_row c t)) as [[ts' r'] | e] eqn:Ins.
    + pose proof Ins as Ins'. apply insert_row_ok in Ins as [Hc [Hrows [Hdef Ha]]].
      unfold assign_id in Ha. rewrite Hd in Ha. simpl in Ha. inversion Ha; subst r'.
      assert (Hnone : find_pair c t (ts_rows ts) = None).
      { destruct (find_pair c t (ts_rows ts)) eqn:F; [| reflexivity]. exfalso.
        unfold find_pair in F. destruct (find (pair_match c t) (ts_rows ts)) as [old |] eqn:Fo;
          [| discriminate].
        apply find_some in Fo as [Hold Pold].
        assert (Hk : In ("uk_channel_task", ["channel_id"; "task_id"]) (unique_keys (ts_def ts)))
          by (rewrite Hd; simpl; auto 10).
        pose proof (find_clash_none ts _ Hc _ Hk old Hold) as Hx. simpl snd in Hx.
        rewrite (pair_match_clash c t) in Hx; [discriminate | exact Pold |].
        unfold pair_match; simpl. rewrite !String.eqb_refl. reflexivity. }
      rewrite Hrows. split; [eapply tr_insert; eauto |].
      split; [| split; [apply pc_ok_app; exact Hq | simpl; lia]].
      simpl. apply find_pair_snoc; [exact Hnone |].
      unfold pair_match; simpl. rewrite !String.eqb_refl. reflexivity.
    + split; [exact Hr | split; [| split; [exact Hq | simpl; lia]]].
      simpl. unfold insert_row, assign_id in Ins. rewrite Hd in Ins. simpl in Ins.
      destruct (find_clash ts _) as [k |] eqn:Hc; [| discriminate].
      apply find_clash_some in Hc as [ks [old [Hk [Hold Hcl]]]].
      rewrite Hd in Hk. simpl in Hk.
      destruct Hk as [Hk | [Hk | []]]; inversion Hk; subst k ks.
      * exfalso. destruct (Hb "id" eq_refl old Hold) as [v [Hv Hlt]].
        unfold clash in Hcl. simpl in Hcl. rewrite Hv in Hcl. simpl in Hcl.
        rewrite andb_true_r in Hcl. apply Z.eqb_eq in Hcl. lia.
      * unfold find_pair. intros E.
        destruct (find (pair_match c t) (ts_rows ts)) eqn:Fo; [discriminate |].
        pose proof (find_none _ _ Fo old Hold) as Hpm.
        unfold clash in Hcl. simpl in Hcl. unfold pair_match in Hpm.
        destruct (get old "channel_id") eqn:E1; try discriminate;
        destruct (get old "task_id") eqn:E2; simpl in Hcl, Hpm;
          try discriminate; try (rewrite andb_false_r in Hcl; discriminate).
        rewrite andb_true_r in Hcl. congruence.
  - destruct (find_pair c t (ts_rows ts)) eqn:F; simpl; [repeat split; auto |].
    contradiction.
  - repeat split; auto.
Qed.

Lemma race_ok (c t : string) (sched : list bool) :
  forall ts p1 p2,
  treach ai_analysis ts -> pc_ok c t (ts_rows ts) p1 -> pc_ok c t (ts_rows ts) p2 ->
  let '(ts', q1, q2) := race c t sched ts p1 p2 in
  treach ai_analysis ts' /\ pc_ok c t (ts_rows ts') q1 /\ pc_ok c t (ts_rows ts') q2
  /\ (rank q1 <= rank p1 - steps_of true sched)%nat
  /\ (rank q2 <= rank p2 - steps_of false sched)%nat.
Proof.
  induction sched as [| b rest IH]; intros ts p1 p2 Hr H1 H2; simpl.
  - unfold steps_of; simpl. repeat split; auto; lia.
  - destruct b.
    + pose proof (sched_step_ok c t ts p1 p2 Hr H1 H2) as Hs.
      destruct (sched_step c t ts p1) as [ts1 p1'] eqn:E.
      destruct Hs as [Hr1 [H1' [H2' Hrk]]].
      specialize (IH ts1 p1' p2 Hr1 H1' H2').
      destruct (race c t rest ts1 p1' p2) as [[ts' q1] q2].
      unfold steps_of in *; simpl.
      destruct IH as [? [? [? [? ?]]]]. repeat split; auto; lia.
    + pose proof (sched_step_ok c t ts p2 p1 Hr H2 H1) as Hs.
      destruct (sched_step c t ts p2) as [ts1 p2'] eqn:E.
      destruct Hs as [Hr1 [H2' [H1' Hrk]]].
      specialize (IH ts1 p1 p2' Hr1 H1' H2').
      destruct (race c t rest ts1 p1 p2') as [[ts' q1] q2].
      unfold steps_of in *; simpl.
      destruct IH as [? [? [? [? ?]]]]. repeat split; auto; lia.
Qed.

Lemma rank_zero (p : sched_pc) : rank p = 0%nat -> exists i, p = SDone i.
Proof. destruct p; simpl; try discriminate; eauto. Qed.

(** C2: in every reachable state of [ai_analysis] a (channel, task) pair
    has at most one row; two schedulers racing on the same pair, each
    given its three steps in any interleaving, both finish, observe the
    same row id, and leave exactly one row for the pair. *)
Theorem ai_analysis_pair_unique (ts : tstate) :
  treach ai_analysis ts ->
  (forall c t, (length (filter (pair_match c t) (ts_rows ts)) <= 1)%nat) /\
  (forall c t sched,
     (3 <= steps_of true sched)%nat -> (3 <= steps_of false sched)%nat ->
     exists ts' i,
       race c t sched ts SLookup SLookup = (ts', SDone i, SDone i) /\
       treach ai_analysis ts' /\
       length (filter (pair_match c t) (ts_rows ts')) = 1%nat).
Proof.
  intros Hr. split.
  - intros c t.
    apply (treach_key_at_most_one ai_analysis ts ("uk_channel_task", ["channel_id"; "task_id"]));
      [exact Hr | simpl; auto 10 |].
    intros a b Ha Hb. apply (pair_match_clash c t); assumption.
  - intros c t sched H1 H2.
    pose proof (race_ok c t sched ts SLookup SLookup Hr I I) as Hrace.
    destruct (race c t sched ts SLookup SLookup) as [[ts' q1] q2].
    destruct Hrace as [Hr' [Hq1 [Hq2 [Hk1 Hk2]]]]. cbn [rank] in Hk1, Hk2.
    destruct (rank_zero q1 ltac:(lia)) as [i1 ->].
    destruct (rank_zero q2 ltac:(lia)) as [i2 ->].
    simpl in Hq1, Hq2. rewrite Hq1 in Hq2. inversion Hq2; subst i2.
    exists ts', i1. split; [reflexivity | split; [exact Hr' |]].
    pose proof (find_pair_count c t _ _ Hq1) as Hge.
    pose proof (treach_key_at_most_one ai_analysis ts' ("uk_channel_task", ["channel_id"; "task_id"])
                  (pair_match c t) Hr' ltac:(simpl; auto 10)
                  (fun a b Ha Hb => pair_match_clash c t a b Ha Hb)) as Hle.
    lia.
Qed.

Lemma ai_analysis_pair_unique_witness :
  treach ai_analysis (empty_table ai_analysis) /\
  exists ts' i,
    race "UC1" "task-1" [true; false; true; false; true; false]
         (empty_table ai_analysis) SLookup SLookup = (ts', SDone i, SDone i) /\
    treach ai_analysis ts' /\
    length (filter (pair_match "UC1" "task-1") (ts_rows ts')) = 1%nat.
Proof.
  split; [apply tr_empty |].
  apply (proj2 (ai_analysis_pair_unique (empty_table ai_analysis) (tr_empty ai_analysis)));
    unfold steps_of; simpl; lia.
Defined.

(** ** Channels *)

Lemma get_put (c : string) (v : value) (r : row) (k : string) :
  get (put c v r) k = if String.eqb c k then v else get r k.
Proof.
  unfold put. simpl. destruct (String.eqb c k) eqn:E; [reflexivity |].
  induction r as [| [k' v'] r IH]; simpl; [reflexivity |].
  destruct (String.eqb k' c) eqn:E1; simpl.
  - apply String.eqb_eq in E1. subst k'. rewrite E. exact IH.
  - destruct (String.eqb k' k); [reflexivity | exact IH].
Qed.

Lemma merge_channel_keeps (now : Z) (data old : row) (k : string) :
  k = "id" \/ k = "channel_id" -> get (merge_channel now data old) k = get old k.
Proof.
  intros Hk. unfold merge_channel. rewrite get_put.
  replace (String.eqb "last_seen_at" k) with false by (destruct Hk; subst; reflexivity).
  unfold channel_mutable_fields. simpl.
  repeat match goal with
         | |- context [match get data ?f with VNull => ?a | _ => _ end] =>
             destruct (get data f)
         end;
  repeat rewrite get_put;
  destruct Hk; subst k; reflexivity.
Qed.

Lemma chan_is_clash (c : string) (a b : row) :
  chan_is c a = true -> chan_is c b = true -> clash ["channel_id"] a b = true.
Proof.
  unfold chan_is, clash. intros Ha Hb. apply sql_eq_eq in Ha, Hb. simpl.
  rewrite Ha, Hb. simpl. rewrite String.eqb_refl. reflexivity.
Qed.

(** One upsert of a channel whose data names it and carries no [id]. *)
Lemma upsert_channel_step (now : Z) (data : row) (c : string) (ts : tstate) :
  treach channels ts -> get data "channel_id" = VStr c -> get data "id" = VNull ->
  let ts' := upsert_channel now data ts in
  treach channels ts' /\
  (exists r, In r (ts_rows ts') /\ chan_is c r = true) /\
  ((exists r, In r (ts_rows ts) /\ chan_is c r = true) ->
   length (ts_rows ts') = length (ts_rows ts)).
Proof.
  intros Hr Hc Hid. destruct (treach_wf _ _ Hr) as [Hd [Hu Hb]].
  set (d := put "first_discovered_at" (VTime now) (put "last_seen_at" (VTime now) data)).
  assert (Hdc : get d "channel_id" = VStr c) by (unfold d; rewrite !get_put; exact Hc).
  assert (Hdi : get d "id" = VNull) by (unfold d; rewrite !get_put; exact Hid).
  assert (Hupd : forall r k, In k (key_cols channels) \/ autoinc_col channels = Some k ->
            get ((fun old => if sql_eq (get old "channel_id") (get data "channel_id")
                             then merge_channel now data old else old) r) k = get r k).
  { intros r k Hk. destruct (sql_eq _ _); [| reflexivity].
    apply merge_channel_keeps. simpl in Hk.
    destruct Hk as [[? | [? | []]] | Hk]; [left | right | left]; auto.
    inversion Hk; reflexivity. }
  assert (Hai : autoinc_col channels = Some "id") by reflexivity.
  unfold upsert_channel. fold d.
  destruct (insert_row ts d) as [[ts1 r1] | e] eqn:Ins.
  - pose proof Ins as Ins'. apply insert_row_ok in Ins as [Hcl [Hrows [Hdef Ha]]].
    unfold assign_id in Ha. rewrite Hd, Hai in Ha. cbv beta iota in Ha. rewrite Hdi in Ha.
    inversion Ha; subst r1.
    split; [eapply tr_insert; eauto |]. split.
    + exists (("id", VInt (ts_next ts)) :: d). rewrite Hrows. split.
      * apply in_or_app. right. left. reflexivity.
      * unfold chan_is.
        change (get (("id", VInt (ts_next ts)) :: d) "channel_id") with (get d "channel_id").
        rewrite Hdc. simpl. apply String.eqb_refl.
    + intros [old [Hold Hco]]. exfalso.
      assert (Hk : In ("channel_id", ["channel_id"]) (unique_keys (ts_def ts)))
        by (rewrite Hd; simpl; auto).
      pose proof (find_clash_none ts _ Hcl _ Hk old Hold) as Hx. simpl snd in Hx.
      rewrite (chan_is_clash c) in Hx; [discriminate | exact Hco |].
      unfold chan_is.
        change (get (("id", VInt (ts_next ts)) :: d) "channel_id") with (get d "channel_id").
        rewrite Hdc. simpl. apply String.eqb_refl.
  - split; [apply tr_update; assumption |]. split.
    + unfold insert_row, assign_id in Ins. rewrite Hd, Hai in Ins. cbv beta iota in Ins.
      rewrite Hdi in Ins.
      destruct (find_clash ts _) as [k |] eqn:Hcl; [| discriminate].
      apply find_clash_some in Hcl as [ks [old [Hk [Hold Hx]]]].
      rewrite Hd in Hk. simpl in Hk.
      destruct Hk as [Hk | [Hk | []]]; inversion Hk; subst k ks.
      * exfalso. destruct (Hb "id" eq_refl old Hold) as [v [Hv Hlt]].
        unfold clash in Hx. simpl in Hx. rewrite Hv in Hx. simpl in Hx.
        rewrite andb_true_r in Hx. apply Z.eqb_eq in Hx. lia.
      * exists (merge_channel now data old). split.
        -- simpl. apply in_map_iff. exists old. split; [| exact Hold].
           unfold clash in Hx. cbn [forallb] in Hx.
           change (get (("id", VInt (ts_next ts)) :: d) "channel_id") with (get d "channel_id") in Hx.
           rewrite Hdc, andb_true_r in Hx. rewrite Hc, Hx. reflexivity.
        -- unfold chan_is. rewrite merge_channel_keeps by auto.
           unfold clash in Hx. cbn [forallb] in Hx.
           change (get (("id", VInt (ts_next ts)) :: d) "channel_id") with (get d "channel_id") in Hx.
           rewrite Hdc, andb_true_r in Hx. exact Hx.
    + intros _. simpl. apply length_map.
Qed.

Lemma exists_count (p : row -> bool) (l : list row) :
  (exists r, In r l /\ p r = true) -> (1 <= length (filter p l))%nat.
Proof.
  intros [r [Hr Hp]]. destruct (filter p l) eqn:E; [| simpl; lia].
  assert (In r (filter p l)) by (apply filter_In; auto). rewrite E in H. destruct H.
Qed.

(** C5: [channels.channel_id] is UNIQUE, so no reachable state holds two
    rows for one channel id; a channel met by two tasks (two upserts of
    the spec's registry) leaves exactly one row, and the second encounter
    adds no row. *)
Theorem channel_id_unique (ts : tstate) :
  treach channels ts ->
  (forall c, (length (filter (chan_is c) (ts_rows ts)) <= 1)%nat) /\
  (forall c now1 now2 d1 d2,
     get d1 "channel_id" = VStr c -> get d1 "id" = VNull ->
     get d2 "channel_id" = VStr c -> get d2 "id" = VNull ->
     let ts1 := upsert_channel now1 d1 ts in
     let ts2 := upsert_channel now2 d2 ts1 in
     treach channels ts2 /\
     length (filter (chan_is c) (ts_rows ts2)) = 1%nat /\
     length (ts_rows ts2) = length (ts_rows ts1)).
Proof.
  intros Hr. split.
  - intros c. apply (treach_key_at_most_one channels ts ("channel_id", ["channel_id"]));
      [exact Hr | simpl; auto |].
    intros a b. apply chan_is_clash.
  - intros c now1 now2 d1 d2 Hc1 Hi1 Hc2 Hi2 ts1 ts2.
    destruct (upsert_channel_step now1 d1 c ts Hr Hc1 Hi1) as [Hr1 [Hex1 _]].
    destruct (upsert_channel_step now2 d2 c ts1 Hr1 Hc2 Hi2) as [Hr2 [Hex2 Hlen]].
    split; [exact Hr2 | split; [| exact (Hlen Hex1)]].
    pose proof (exists_count _ _ Hex2) as Hge.
    pose proof (treach_key_at_most_one channels ts2 ("channel_id", ["channel_id"]) (chan_is c)
                  Hr2 ltac:(simpl; auto) (chan_is_clash c)) as Hle.
    unfold ts2, ts1 in *. lia.
Qed.

Lemma channel_id_unique_witness :
  treach channels (empty_table channels) /\
  (let d := [("channel_id", VStr "UC1"); ("channel_title", VStr "Cleaner");
             ("channel_url", VStr "https://www.youtube.com/channel/UC1")] in
   let ts1 := upsert_channel 10 d (empty_table channels) in
   let ts2 := upsert_channel 20 d ts1 in
   treach channels ts2 /\
   length (filter (chan_is "UC1") (ts_rows ts2)) = 1%nat /\
   length (ts_rows ts2) = length (ts_rows ts1)).
Proof.
  split; [apply tr_empty |].
  apply (proj2 (channel_id_unique (empty_table channels) (tr_empty channels)));
    reflexivity.
Defined.

(** ** Video statistics *)

(** The only unique constraint of [channel_video_stats] is its primary
    key: every id-less row is accepted in any reachable state. *)
Lemma channel_video_stats_accepts (ts : tstate) (r : row) :
  treach channel_video_stats ts -> get r "id" = VNull ->
  exists ts', insert_row ts r = Ok (ts', ("id", VInt (ts_next ts)) :: r).
Proof.
  intros Hr Hid. destruct (treach_wf _ _ Hr) as [Hd [_ Hb]].
  unfold insert_row, assign_id. rewrite Hd.
  assert (Hai : autoinc_col channel_video_stats = Some "id") by reflexivity.
  rewrite Hai. cbv beta iota. rewrite Hid.
  destruct (find_clash ts _) as [k |] eqn:Hc; [| eexists; reflexivity].
  exfalso. apply find_clash_some in Hc as [ks [old [Hk [Hold Hx]]]].
  rewrite Hd in Hk. simpl in Hk. destruct Hk as [Hk | []]. inversion Hk; subst k ks.
  destruct (Hb "id" Hai old Hold) as [v [Hv Hlt]].
  unfold clash in Hx. simpl in Hx. rewrite Hv in Hx. simpl in Hx.
  rewrite andb_true_r in Hx. apply Z.eqb_eq in Hx. lia.
Qed.

(** C1 (evaluated): two snapshots for the same (channel, task) pair are
    both stored in [channel_video_stats]; no key refuses the second. *)
Theorem channel_video_stats_duplicate_pair :
  exists ts1 ts2 r1 r2,
    insert_row (empty_table channel_video_stats) (snapshot_row "UC1" "task-1") = Ok (ts1, r1) /\
    insert_row ts1 (snapshot_row "UC1" "task-1") = Ok (ts2, r2) /\
    treach channel_video_stats ts2 /\
    length (filter (pair_match "UC1" "task-1") (ts_rows ts2)) = 2%nat.
Proof.
  do 4 eexists. split; [reflexivity | split; [reflexivity |]]. split.
  - eapply (tr_insert _ _ (snapshot_row "UC1" "task-1"));
      [eapply (tr_insert _ _ (snapshot_row "UC1" "task-1")); [apply tr_empty | reflexivity]
      | reflexivity].
  - reflexivity.
Qed.

(** ** Deletion and the foreign-key actions *)

Section Assoc.
Context {A : Type}.

Lemma lookup_update_other (k k' : string) (f : A -> A) (l : list (string * A)) :
  k' <> k -> lookup k (update_at k' f l) = lookup k l.
Proof.
  intros Hne. induction l as [| [k0 a] l IH]; simpl; [reflexivity |].
  destruct (String.eqb k0 k') eqn:E1; simpl.
  - apply String.eqb_eq in E1. subst k0.
    destruct (String.eqb k' k) eqn:E2; [apply String.eqb_eq in E2; contradiction | exact IH].
  - destruct (String.eqb k0 k); [reflexivity | exact IH].
Qed.

Lemma lookup_update_same (k : string) (f : A -> A) (l : list (string * A)) :
  lookup k (update_at k f l) = option_map f (lookup k l).
Proof.
  induction l as [| [k0 a] l IH]; simpl; [reflexivity |].
  destruct (String.eqb k0 k) eqn:E1; simpl; rewrite ?E1; [reflexivity | exact IH].
Qed.

Lemma update_absent (k : string) (f : A -> A) (l : list (string * A)) :
  lookup k l = None -> update_at k f l = l.
Proof.
  induction l as [| [k0 a] l IH]; simpl; [reflexivity |].
  destruct (String.eqb k0 k); [discriminate | intros H; f_equal; auto].
Qed.

Lemma update_update (k : string) (f g : A -> A) (l : list (string * A)) :
  update_at k f (update_at k g l) = update_at k (fun x => f (g x)) l.
Proof.
  induction l as [| [k0 a] l IH]; simpl; [reflexivity |].
  destruct (String.eqb k0 k) eqn:E; simpl; rewrite ?E; f_equal; exact IH.
Qed.

Lemma update_ext (k : string) (f g : A -> A) (l : list (string * A)) :
  (forall x, f x = g x) -> update_at k f l = update_at k g l.
Proof.
  intros H. induction l as [| [k0 a] l IH]; simpl; [reflexivity |].
  destruct (String.eqb k0 k); simpl; rewrite ?H, IH; reflexivity.
Qed.

End Assoc.

Lemma fold_same {B : Type} (F : value -> B -> B) (keys : list value) (v : value) (acc : B) :
  (forall k, In k keys -> k = v) -> (forall a, F v (F v a) = F v a) -> keys <> [] ->
  fold_left (fun a k => F k a) keys acc = F v acc.
Proof.
  intros Hk Hid Hne. revert acc.
  induction keys as [| k ks IH]; intros acc; [contradiction |].
  simpl. rewrite (Hk k (or_introl eq_refl)).
  destruct ks as [| k' ks'] eqn:Eks; [reflexivity |].
  rewrite <- Eks in *. rewrite IH.
  - apply Hid.
  - intros k0 H0. apply Hk. right. exact H0.
  - subst ks. discriminate.
Qed.

Lemma fold_lookup {B : Type} (F : value -> list (string * B) -> list (string * B))
    (k : string) (keys : list value) (acc : list (string * B)) :
  (forall key a, lookup k (F key a) = lookup k a) ->
  lookup k (fold_left (fun a key => F key a) keys acc) = lookup k acc.
Proof.
  intros H. revert acc. induction keys as [| key ks IH]; intros acc; simpl; [reflexivity |].
  rewrite IH. apply H.
Qed.

Lemma fold_skip (fks : list fkey) (tbl : string)
    (body : fkey -> list (string * tstate) -> list (string * tstate)) acc :
  (forall fk, In fk fks -> fk_parent fk <> tbl) ->
  fold_left (fun a fk => if String.eqb (fk_parent fk) tbl then body fk a else a) fks acc = acc.
Proof.
  revert acc. induction fks as [| fk fks IH]; intros acc H; simpl; [reflexivity |].
  destruct (String.eqb (fk_parent fk) tbl) eqn:E.
  - apply String.eqb_eq in E. exfalso. exact (H fk (or_introl eq_refl) E).
  - apply IH. intros fk' Hin. apply H. right; exact Hin.
Qed.

(** Deleting from a table that no foreign key names as parent touches
    that table only. *)
Lemma delete_leaf (f : nat) (fks : list fkey) (tbl c : string) (v : value) ts :
  (forall fk, In fk fks -> fk_parent fk <> tbl) ->
  delete_where (S f) fks tbl c v ts =
  update_at tbl (filter_rows (fun r => negb (sql_eq (get r c) v))) ts.
Proof.
  intros H. cbn [delete_where]. destruct (lookup tbl ts) eqn:E.
  - apply fold_skip. exact H.
  - symmetry. apply update_absent. exact E.
Qed.

Lemma filter_rows_idem (p : row -> bool) (ts : tstate) :
  filter_rows p (filter_rows p ts) = filter_rows p ts.
Proof.
  unfold filter_rows; simpl. f_equal.
  induction (ts_rows ts) as [| r rs IH]; simpl; [reflexivity |].
  destruct (p r) eqn:E; simpl; rewrite ?E, IH; reflexivity.
Qed.

Lemma get_set_col_same (c : string) (r : row) : get (set_col c VNull r) c = VNull.
Proof.
  induction r as [| [k v] r IH]; simpl; [reflexivity |].
  destruct (String.eqb k c) eqn:E; simpl.
  - rewrite String.eqb_refl. reflexivity.
  - rewrite E. exact IH.
Qed.

Lemma get_set_col_other (c k : string) (v : value) (r : row) :
  k <> c -> get (set_col c v r) k = get r k.
Proof.
  intros Hne. induction r as [| [k0 x] r IH]; simpl; [reflexivity |].
  destruct (String.eqb k0 c) eqn:E; simpl.
  - apply String.eqb_eq in E. subst k0.
    destruct (String.eqb c k) eqn:E2; [apply String.eqb_eq in E2; congruence | exact IH].
  - destruct (String.eqb k0 k); [reflexivity | exact IH].
Qed.

Lemma null_parent_idem (t : string) (r : row) : null_parent t (null_parent t r) = null_parent t r.
Proof.
  unfold null_parent. destruct (sql_eq (get r "parent_task_id") (VStr t)) eqn:E.
  - rewrite get_set_col_same. reflexivity.
  - rewrite E. reflexivity.
Qed.

Lemma victim_keys (c : string) (v : value) (rows : list row) :
  forall k, In k (map (fun r => get r c) (filter (fun r => sql_eq (get r c) v) rows)) -> k = v.
Proof.
  intros k Hk. apply in_map_iff in Hk as [r [<- Hr]].
  apply filter_In in Hr as [_ Hr]. apply sql_eq_eq in Hr. exact Hr.
Qed.

Lemma victim_keys_nonempty (c : string) (v : value) (rows : list row) :
  (exists r, In r rows /\ get r c = v) -> v <> VNull ->
  map (fun r => get r c) (filter (fun r => sql_eq (get r c) v) rows) <> [].
Proof.
  intros [r [Hin Hg]] Hnn E.
  assert (Hf : In r (filter (fun r => sql_eq (get r c) v) rows)).
  { apply filter_In. split; [exact Hin |]. rewrite Hg.
    destruct v; simpl; try contradiction; auto using Z.eqb_refl, String.eqb_refl. }
  destruct (filter _ rows); [destruct Hf | discriminate].
Qed.

Lemma delete_where_S (f : nat) (fks : list fkey) (tbl c : string) (v : value) ts :
  delete_where (S f) fks tbl c v ts =
  match lookup tbl ts with
  | None => ts
  | Some t =>
      let victims := filter (fun r => sql_eq (get r c) v) (ts_rows t) in
      let ts1 := update_at tbl (filter_rows (fun r => negb (sql_eq (get r c) v))) ts in
      fold_left
        (fun acc fk =>
           if String.eqb (fk_parent fk) tbl then
             fold_left
               (fun acc2 key =>
                  match fk_on_delete fk with
                  | SetNull =>
                      update_at (fk_child fk)
                        (map_rows (fun r => if sql_eq (get r (fk_child_col fk)) key
                                            then set_col (fk_child_col fk) VNull r
                                            else r)) acc2
                  | Cascade => delete_where f fks (fk_child fk) (fk_child_col fk) key acc2
                  end)
               (map (fun r => get r (fk_parent_col fk)) victims) acc
           else acc)
        fks ts1
  end.
Proof. reflexivity. Qed.

Lemma no_child_of (tbl : string) :
  tbl = "channel_video_stats" \/ tbl = "ai_analysis" ->
  forall fk, In fk constraints -> fk_parent fk <> tbl.
Proof.
  intros Ht fk Hin. simpl in Hin.
  destruct Hin as [<- | [<- | [<- | [<- | [<- | []]]]]]; simpl;
    destruct Ht as [-> | ->]; discriminate.
Qed.

Lemma leaf_lookup (f : nat) (tbl c k : string) (key : value) a :
  (1 <= f)%nat -> tbl = "channel_video_stats" \/ tbl = "ai_analysis" -> tbl <> k ->
  lookup k (delete_where f constraints tbl c key a) = lookup k a.
Proof.
  intros Hf Ht Hne. destruct f as [| g]; [lia |].
  rewrite delete_leaf by (apply no_child_of; exact Ht).
  apply lookup_update_other. exact Hne.
Qed.

(** Deleting a task: the [search_tasks] table loses the task's row and
    every child naming it as parent gets [parent_task_id = NULL]. *)
Lemma delete_task_effect (f : nat) (t : string) (tabs : list (string * tstate)) ts :
  (1 <= f)%nat ->
  lookup "search_tasks" tabs = Some ts ->
  (exists r, In r (ts_rows ts) /\ get r "task_id" = VStr t) ->
  lookup "search_tasks" (delete_where (S f) constraints "search_tasks" "task_id" (VStr t) tabs)
  = Some (map_rows (null_parent t)
            (filter_rows (fun r => negb (sql_eq (get r "task_id") (VStr t))) ts)).
Proof.
  intros Hf Hl Hex. rewrite delete_where_S, Hl. simpl.
  rewrite (fold_lookup (fun key a => delete_where f constraints "ai_analysis" "task_id" key a))
    by (intros; apply leaf_lookup; auto; discriminate).
  rewrite (fold_lookup (fun key a => delete_where f constraints "channel_video_stats" "task_id" key a))
    by (intros; apply leaf_lookup; auto; discriminate).
  rewrite (fold_same
             (fun key a => update_at "search_tasks"
                (map_rows (fun r => if sql_eq (get r "parent_task_id") key
                                    then set_col "parent_task_id" VNull r else r)) a)
             _ (VStr t)).
  - rewrite lookup_update_same, lookup_update_same, Hl. reflexivity.
  - apply victim_keys.
  - intros a. rewrite update_update. apply update_ext. intros x.
    unfold map_rows; simpl. f_equal. rewrite map_map. apply map_ext.
    intros r. fold (null_parent t r). apply null_parent_idem.
  - apply victim_keys_nonempty; [exact Hex | discriminate].
Qed.

Lemma leaf_fold_same (g : nat) (tbl c : string) (keys : list value) (v : value) acc :
  tbl = "channel_video_stats" \/ tbl = "ai_analysis" ->
  (forall k, In k keys -> k = v) -> keys <> [] ->
  fold_left (fun a key => delete_where (S g) constraints tbl c key a) keys acc
  = update_at tbl (keep_unless c v) acc.
Proof.
  intros Ht Hk Hne.
  rewrite (fold_same (fun key a => delete_where (S g) constraints tbl c key a) keys v acc Hk);
    [| | exact Hne].
  - apply delete_leaf. apply no_child_of. exact Ht.
  - intros a. rewrite !delete_leaf by (apply no_child_of; exact Ht).
    rewrite update_update. apply update_ext. intros x. apply filter_rows_idem.
Qed.

(** Deleting a channel: its row goes, and so do exactly the statistics
    and analysis rows naming it; every other table is left as it was. *)
Lemma delete_channel_effect (f : nat) (c : string) (tabs : list (string * tstate)) ts :
  (1 <= f)%nat ->
  lookup "channels" tabs = Some ts ->
  (exists r, In r (ts_rows ts) /\ get r "channel_id" = VStr c) ->
  delete_where (S f) constraints "channels" "channel_id" (VStr c) tabs
  = update_at "ai_analysis" (keep_unless "channel_id" (VStr c))
      (update_at "channel_video_stats" (keep_unless "channel_id" (VStr c))
         (update_at "channels" (keep_unless "channel_id" (VStr c)) tabs)).
Proof.
  intros Hf Hl Hex. rewrite delete_where_S, Hl. simpl.
  destruct f as [| g]; [lia |].
  pose proof (victim_keys "channel_id" (VStr c) (ts_rows ts)) as Hk.
  pose proof (victim_keys_nonempty "channel_id" (VStr c) (ts_rows ts) Hex ltac:(discriminate)) as Hne.
  rewrite (leaf_fold_same g "channel_video_stats" "channel_id" _ (VStr c)) by auto.
  rewrite (leaf_fold_same g "ai_analysis" "channel_id" _ (VStr c)) by auto.
  reflexivity.
Qed.

Lemma cur_db_put (s : server) (n : string) (d d' : database) :
  cur_db s = Some (n, d) -> cur_db (put_db s n d') = Some (n, d').
Proof.
  unfold cur_db, put_db; simpl. destruct (srv_cur s) as [n0 |]; [| discriminate].
  destruct (lookup n0 (srv_dbs s)) eqn:E; simpl; intros H; inversion H; subst.
  rewrite lookup_update_same, E. reflexivity.
Qed.

(** C4: a bootstrap run installs exactly the five foreign keys of
    [add_foreign_keys]; under them, deleting a task that is some child's
    parent rewrites [search_tasks] to the other rows, with
    [parent_task_id] nulled where it named the task and every other field
    kept, and deleting a channel removes exactly its row and the
    [channel_video_stats] and [ai_analysis] rows naming it. *)
Theorem fk_delete_rules :
  (exists n d, cur_db (snd (run_main fresh_server)) = Some (n, d) /\ db_fks d = constraints) /\
  (forall s n d, cur_db s = Some (n, d) -> db_fks d = constraints ->
   (forall t ts,
      lookup "search_tasks" (db_tables d) = Some ts ->
      (exists r, In r (ts_rows ts) /\ get r "task_id" = VStr t) ->
      exists s' d',
        exec_sql (DeleteWhere "search_tasks" "task_id" (VStr t)) s = Ok s' /\
        cur_db s' = Some (n, d') /\
        lookup "search_tasks" (db_tables d')
          = Some (map_rows (null_parent t) (keep_unless "task_id" (VStr t) ts)) /\
        (forall r, get r "parent_task_id" = VStr t ->
           get (null_parent t r) "parent_task_id" = VNull) /\
        (forall r k, k <> "parent_task_id" -> get (null_parent t r) k = get r k)) /\
   (forall c ts,
      lookup "channels" (db_tables d) = Some ts ->
      (exists r, In r (ts_rows ts) /\ get r "channel_id" = VStr c) ->
      exists s' d',
        exec_sql (DeleteWhere "channels" "channel_id" (VStr c)) s = Ok s' /\
        cur_db s' = Some (n, d') /\
        db_tables d'
          = update_at "ai_analysis" (keep_unless "channel_id" (VStr c))
              (update_at "channel_video_stats" (keep_unless "channel_id" (VStr c))
                 (update_at "channels" (keep_unless "channel_id" (VStr c)) (db_tables d))))).
Proof.
  split.
  { eexists. eexists. split; [vm_compute; reflexivity | reflexivity]. }
  intros s n d Hcur Hfks. split.
  - intros t ts Hl Hex.
    set (d' := with_tables d (delete_where (S (length (db_fks d))) (db_fks d)
                                "search_tasks" "task_id" (VStr t) (db_tables d))).
    exists (put_db s n d'), d'. split.
    + unfold exec_sql, on_cur. rewrite Hcur. unfold d'.
      destruct (lookup "search_tasks" (db_tables d)); [reflexivity | discriminate].
    + split; [apply (cur_db_put s n d d' Hcur) |]. split.
      * unfold d', with_tables. simpl. rewrite Hfks.
        apply (delete_task_effect 5 t (db_tables d) ts ltac:(lia) Hl Hex).
      * split.
        -- intros r Hr. unfold null_parent. rewrite Hr. simpl. rewrite String.eqb_refl.
           apply get_set_col_same.
        -- intros r k Hk. unfold null_parent.
           destruct (sql_eq _ _); [apply get_set_col_other; exact Hk | reflexivity].
  - intros c ts Hl Hex.
    set (d' := with_tables d (delete_where (S (length (db_fks d))) (db_fks d)
                                "channels" "channel_id" (VStr c) (db_tables d))).
    exists (put_db s n d'), d'. split.
    + unfold exec_sql, on_cur. rewrite Hcur. unfold d'.
      destruct (lookup "channels" (db_tables d)); [reflexivity | discriminate].
    + split; [apply (cur_db_put s n d d' Hcur) |].
      unfold d', with_tables. simpl. rewrite Hfks.
      apply (delete_channel_effect 5 c (db_tables d) ts ltac:(lia) Hl Hex).
Qed.

Lemma fk_delete_rules_witness :
  cur_db demo_server = Some ("youtube_kol_db", demo_db) /\
  db_fks demo_db = constraints /\
  (exists s' d',
     exec_sql (DeleteWhere "search_tasks" "task_id" (VStr "T1")) demo_server = Ok s' /\
     cur_db s' = Some ("youtube_kol_db", d') /\
     lookup "search_tasks" (db_tables d')
       = Some (map_rows (null_parent "T1")
                 (keep_unless "task_id" (VStr "T1") (demo_table "search_tasks"))) /\
     (forall r, get r "parent_task_id" = VStr "T1" ->
        get (null_parent "T1" r) "parent_task_id" = VNull) /\
     (forall r k, k <> "parent_task_id" -> get (null_parent "T1" r) k = get r k)) /\
  (exists s' d',
     exec_sql (DeleteWhere "channels" "channel_id" (VStr "UC1")) demo_server = Ok s' /\
     cur_db s' = Some ("youtube_kol_db", d') /\
     db_tables d'
       = update_at "ai_analysis" (keep_unless "channel_id" (VStr "UC1"))
           (update_at "channel_video_stats" (keep_unless "channel_id" (VStr "UC1"))
              (update_at "channels" (keep_unless "channel_id" (VStr "UC1")) (db_tables demo_db)))).
Proof.
  assert (Hcur : cur_db demo_server = Some ("youtube_kol_db", demo_db))
    by (vm_compute; reflexivity).
  assert (Hfks : db_fks demo_db = constraints) by (vm_compute; reflexivity).
  destruct (proj2 fk_delete_rules demo_server "youtube_kol_db" demo_db Hcur Hfks) as [Ht Hc].
  split; [exact Hcur | split; [exact Hfks | split]].
  - apply (Ht "T1" (demo_table "search_tasks")); [vm_compute; reflexivity |].
    exists [("id", VInt 1); ("task_id", VStr "T1");
            ("keyword", VStr "windows cleaner"); ("status", VStr "completed")].
    split; [vm_compute; left; reflexivity | reflexivity].
  - apply (Hc "UC1" (demo_table "channels")); [vm_compute; reflexivity |].
    exists [("id", VInt 1); ("channel_id", VStr "UC1"); ("channel_title", VStr "Cleaner");
            ("channel_url", VStr "https://www.youtube.com/channel/UC1")].
    split; [vm_compute; left; reflexivity | reflexivity].
Defined.

(** ** Enum value sets *)

(** C6: the status columns of the created schema carry exactly the value
    sets of the data model. *)
Theorem status_enum_values :
  option_map col_type (find_col search_tasks "status")
    = Some (TEnum ["pending"; "running"; "completed"; "failed"; "paused"]) /\
  option_map col_type (find_col channels "status")
    = Some (TEnum ["active"; "disappeared"; "deleted"; "private"]) /\
  option_map col_type (find_col ai_analysis "analysis_status")
    = Some (TEnum ["pending"; "processing"; "completed"; "failed"]) /\
  In search_tasks tables /\ In channels tables /\ In ai_analysis tables /\
  map task_status_name [Pending; Running; Completed; Failed; Paused]
    = ["pending"; "running"; "completed"; "failed"; "paused"].
Proof. vm_compute. repeat split; auto 10. Qed.

(** ** The task lifecycle *)

(** C7: under the Orchestrator's operations a completed or failed task
    keeps its status forever, and every status change is an edge of the
    lifecycle [pending -> running -> {completed, failed}],
    [running -> paused], [paused -> running]. *)
Theorem task_lifecycle :
  (forall ops tk, is_terminal (task_state tk) = true ->
     task_state (orch_run ops tk) = task_state tk) /\
  (forall op tk, task_state (orch_apply op tk) = task_state tk \/
     lifecycle_edge (task_state tk) (task_state (orch_apply op tk)) = true) /\
  (forall a b, lifecycle_edge a b = true -> is_terminal a = false).
Proof.
  split; [| split].
  - intros ops. induction ops as [| op ops IH]; intros tk Ht; simpl; [reflexivity |].
    assert (Hs : task_state (orch_apply op tk) = task_state tk)
      by (destruct op, tk as [[] e]; simpl in *; try discriminate; reflexivity).
    unfold orch_run in IH. rewrite IH; [exact Hs | rewrite Hs; exact Ht].
  - intros op [st e]. destruct op, st; simpl; auto.
  - intros [] []; simpl; try discriminate; reflexivity.
Qed.

Lemma task_lifecycle_witness :
  is_terminal Completed = true /\
  task_state (orch_run [OStart; OResume; OFail "quota"] (mkTask Completed None)) = Completed /\
  lifecycle_edge Running Paused = true /\ is_terminal Running = false.
Proof.
  split; [reflexivity | split].
  - apply (proj1 task_lifecycle). reflexivity.
  - split; [reflexivity |]. apply (proj2 (proj2 task_lifecycle) Running Paused). reflexivity.
Defined.

(** ** Quota accounting *)

Lemma best_in (k : api_key) (ks : list api_key) : In (best k ks) (k :: ks).
Proof.
  unfold best. revert k. induction ks as [| x ks IH]; intros k; simpl; [auto |].
  destruct (better x k).
  - specialize (IH x). simpl in IH. destruct IH as [H | H]; auto.
  - specialize (IH k). simpl in IH. destruct IH as [H | H]; auto.
Qed.

Lemma acquire_pool (p : string) (today : Z) (pool : list api_key) :
  fst (acquire p today pool) = map (reset_if_new_day today) pool.
Proof. unfold acquire. destruct (filter _ _); reflexivity. Qed.

Lemma acquire_granted (p : string) (today : Z) (pool : list api_key) (g : api_key) :
  snd (acquire p today pool) = Granted g ->
  In g (map (reset_if_new_day today) pool) /\ eligible p g = true.
Proof.
  unfold acquire. destruct (filter _ _) as [| k ks] eqn:Hf; simpl; [discriminate |].
  intros Hg. injection Hg as <-.
  assert (Hin : In (best k ks) (filter (eligible p) (map (reset_if_new_day today) pool)))
    by (rewrite Hf; apply best_in).
  apply filter_In in Hin. exact Hin.
Qed.

Lemma reset_key_id (today : Z) (k : api_key) : key_id (reset_if_new_day today k) = key_id k.
Proof. unfold reset_if_new_day. destruct (last_reset_date k) as [d |]; [destruct (d <? today) |]; reflexivity. Qed.

Lemma exhausted_reset (today id : Z) (pool : list api_key) :
  exhausted_today today id pool -> exhausted_today today id (map (reset_if_new_day today) pool).
Proof.
  intros H k' Hk' Hid. apply in_map_iff in Hk'. destruct Hk' as [k [<- Hk]].
  rewrite reset_key_id in Hid. destruct (H k Hk Hid) as [Hd Hq].
  unfold reset_if_new_day. rewrite Hd, Z.ltb_irrefl. auto.
Qed.

Lemma exhausted_record (today id id' u : Z) (pool : list api_key) :
  0 <= u -> exhausted_today today id pool ->
  exhausted_today today id (record_in_pool id' u pool).
Proof.
  intros Hu H k' Hk' Hid. unfold record_in_pool in Hk'.
  apply in_map_iff in Hk'. destruct Hk' as [k [<- Hk]].
  destruct (key_id k =? id'); simpl in *; destruct (H k Hk Hid) as [Hd Hq];
    split; auto; lia.
Qed.

Lemma pool_day_exhausted (today id : Z) (ops : list pool_op) (pool : list api_key) :
  Forall units_nonneg ops -> exhausted_today today id pool ->
  forall g, In g (snd (pool_day today ops pool)) -> key_id g <> id.
Proof.
  revert pool. induction ops as [| op ops IH]; intros pool Hops Hex g Hg; simpl in Hg; [contradiction |].
  inversion Hops as [| ? ? Hop Hops']; subst.
  destruct op as [p | id' u].
  - destruct (acquire p today pool) as [pool' res] eqn:Ha.
    assert (Hp' : pool' = map (reset_if_new_day today) pool)
      by (rewrite <- (acquire_pool p today pool), Ha; reflexivity).
    assert (Hex' : exhausted_today today id pool') by (subst pool'; apply exhausted_reset, Hex).
    destruct (pool_day today ops pool') as [fin granted] eqn:Hd.
    assert (Hrest : forall g, In g granted -> key_id g <> id).
    { intros g' Hg'. apply (IH pool' Hops' Hex'). rewrite Hd. exact Hg'. }
    destruct res as [k |]; simpl in Hg; [| auto].
    destruct Hg as [-> | Hg]; [| auto].
    assert (Hgr : snd (acquire p today pool) = Granted g) by (rewrite Ha; reflexivity).
    destruct (acquire_granted p today pool g Hgr) as [Hin Hel].
    rewrite <- Hp' in Hin. intros Hid. destruct (Hex' g Hin Hid) as [_ Hq].
    unfold eligible in Hel. apply andb_prop in Hel as [_ Hlt]. apply Z.ltb_lt in Hlt. lia.
  - simpl in Hop. apply (IH (record_in_pool id' u pool) Hops'); [apply exhausted_record; assumption | exact Hg].
Qed.

(** C8: [record_usage(key, units)] adds exactly [units] to [used_quota]
    and always accepts the served call; when the total exceeds
    [daily_quota] on the key's current day, no later [acquire] of that day
    grants the key, whatever operations (with non-negative costs) follow.
    Concretely [{daily_quota=100, used_quota=95}] plus 10 units gives
    [used_quota=105], an accepted call, and an exhausted key. *)
Theorem record_usage_overage :
  (forall u k, record_usage u k = Granted (with_used k (used_quota k + u) (last_reset_date k)) /\
     used_quota (with_used k (used_quota k + u) (last_reset_date k)) = used_quota k + u /\
     daily_quota (with_used k (used_quota k + u) (last_reset_date k)) = daily_quota k) /\
  (forall today id u pool ops,
     (forall k, In k pool -> key_id k = id ->
        last_reset_date k = Some today /\ daily_quota k < used_quota k + u) ->
     Forall units_nonneg ops ->
     forall g, In g (snd (pool_day today ops (record_in_pool id u pool))) -> key_id g <> id) /\
  (let k := mkKey 1 "youtube" 100 95 (Some 7) true 0 in
   exists k', record_usage 10 k = Granted k' /\ used_quota k' = 105 /\
     snd (acquire "youtube" 7 [k']) = QuotaExhausted).
Proof.
  split; [| split].
  - intros u k. repeat split.
  - intros today id u pool ops Hpool Hops. apply pool_day_exhausted; [exact Hops |].
    intros k' Hk' Hid. unfold record_in_pool in Hk'.
    apply in_map_iff in Hk'. destruct Hk' as [k [<- Hk]].
    destruct (key_id k =? id) eqn:E; simpl in *.
    + destruct (Hpool k Hk Hid) as [Hd Hq]. split; [exact Hd | lia].
    + apply Z.eqb_neq in E. contradiction.
  - simpl. eexists. split; [reflexivity |]. split; reflexivity.
Qed.

Lemma record_usage_overage_witness :
  snd (pool_day 7 [PAcquire "youtube"; PRecord 1 3; PAcquire "youtube"]
         (record_in_pool 1 10 [mkKey 1 "youtube" 100 95 (Some 7) true 0;
                               mkKey 2 "youtube" 100 0 (Some 7) true 0])) <> [] /\
  Forall (fun g => key_id g <> 1)
    (snd (pool_day 7 [PAcquire "youtube"; PRecord 1 3; PAcquire "youtube"]
            (record_in_pool 1 10 [mkKey 1 "youtube" 100 95 (Some 7) true 0;
                                  mkKey 2 "youtube" 100 0 (Some 7) true 0]))).
Proof.
  split; [vm_compute; discriminate |].
  apply Forall_forall.
  apply (proj1 (proj2 record_usage_overage) 7 1 10
           [mkKey 1 "youtube" 100 95 (Some 7) true 0; mkKey 2 "youtube" 100 0 (Some 7) true 0]).
  - intros k' [<- | [<- | []]] Hid; simpl in *; [split; [reflexivity | lia] | discriminate].
  - repeat constructor; simpl; lia.
Defined.

(** ** Foreign-key errors are swallowed *)

Lemma for_each_ret {A} (l : list A) (body : A -> M unit) (st : pstate) :
  (forall x st0, In x l -> fst (body x st0) = Ret tt) ->
  fst (for_each l body st) = Ret tt.
Proof.
  revert st. induction l as [| x l IH]; intros st Hb; simpl; [reflexivity |].
  unfold bind. pose proof (Hb x st (or_introl eq_refl)) as Hx.
  destruct (body x st) as [[[] | e] st']; simpl in Hx; [| discriminate].
  apply IH. intros y st0 Hy. apply Hb; right; exact Hy.
Qed.

(** C9: [add_foreign_keys] never raises, whatever the server answers:
    for each constraint an accepted statement is logged, an error whose
    message contains "Duplicate" is dropped without trace, any other error
    only adds a warning to the log; and [main] then runs to the end and
    reports success, exit status 0, even when the server refused every
    constraint and none is installed. *)
Theorem add_foreign_keys_swallows_errors :
  (forall exec fk st,
     add_foreign_key exec fk st =
     match exec (AddForeignKey fk) (ps_srv st) with
     | Ok srv' => (Ret tt, mkPstate srv' (ps_log st ++ [LInfo "Foreign key constraint added"]))
     | Err e => (Ret tt, if contains "Duplicate" e then st
                         else mkPstate (ps_srv st) (ps_log st ++ [LWarning ("Constraint warning: " ++ e)]))
     end) /\
  (forall exec st, fst (add_foreign_keys exec st) = Ret tt) /\
  (let '(o, st) := main fk_refusing_exec "youtube_kol_db" (mkPstate fresh_server []) in
   o = Ret 0 /\
   In (LInfo "Database initialization completed successfully!") (ps_log st) /\
   In (LWarning ("Constraint warning: " ++ "1215 (HY000): Cannot add foreign key constraint")) (ps_log st) /\
   constraints <> [] /\
   exists n d, cur_db (ps_srv st) = Some (n, d) /\ db_fks d = []).
Proof.
  assert (Hone : forall exec fk st,
     add_foreign_key exec fk st =
     match exec (AddForeignKey fk) (ps_srv st) with
     | Ok srv' => (Ret tt, mkPstate srv' (ps_log st ++ [LInfo "Foreign key constraint added"]))
     | Err e => (Ret tt, if contains "Duplicate" e then st
                         else mkPstate (ps_srv st) (ps_log st ++ [LWarning ("Constraint warning: " ++ e)]))
     end).
  { intros exec fk st. unfold add_foreign_key, try_except, bind, execute.
    destruct (exec (AddForeignKey fk) (ps_srv st)) as [srv' | e]; [reflexivity |].
    destruct (contains "Duplicate" e); reflexivity. }
  split; [exact Hone | split].
  - intros exec st. unfold add_foreign_keys. apply for_each_ret.
    intros fk st0 _. rewrite Hone.
    destruct (exec (AddForeignKey fk) (ps_srv st0)); reflexivity.
  - vm_compute. split; [reflexivity |]. split; [right; auto 60 |].
    split; [auto 60 |]. split; [discriminate |]. eauto.
Qed.

(** ** The migration ledger *)

Lemma insert_ignore_treach (t : table_def) (rs : list row) (ts : tstate) :
  treach t ts -> treach t (insert_ignore rs ts).
Proof.
  unfold insert_ignore. revert ts. induction rs as [| m rs IH]; intros ts Hr; simpl; [exact Hr |].
  apply IH. destruct (insert_row ts m) as [[ts' r'] | e] eqn:Ei; [| exact Hr].
  exact (tr_insert t ts m ts' r' Hr Ei).
Qed.

Lemma insert_ignore_keeps (rs : list row) (ts : tstate) (r : row) :
  In r (ts_rows ts) -> In r (ts_rows (insert_ignore rs ts)).
Proof.
  unfold insert_ignore. revert ts. induction rs as [| m rs IH]; intros ts Hr; simpl; [exact Hr |].
  apply IH. destruct (insert_row ts m) as [[ts' r'] | e] eqn:Ei; [| exact Hr].
  apply insert_row_ok in Ei as [_ [Hrows _]]. rewrite Hrows. apply in_or_app. left; exact Hr.
Qed.

Lemma schema_migrations_keys : unique_keys schema_migrations = [("PRIMARY", ["version"])].
Proof. reflexivity. Qed.

(** After [INSERT IGNORE] into the ledger, every inserted version is held
    by some row: the new one, or the stored row that refused it. *)
Lemma insert_ignore_present (rs : list row) (ts : tstate) :
  treach schema_migrations ts ->
  forall m v, In m rs -> get m "version" = VInt v ->
  exists r, In r (ts_rows (insert_ignore rs ts)) /\ version_is v r = true.
Proof.
  unfold insert_ignore. revert ts. induction rs as [| m0 rs IH]; intros ts Hr m v Hm Hv; [destruct Hm |].
  simpl. destruct (treach_wf _ _ Hr) as [Hd _].
  assert (Hnext : treach schema_migrations
                    (match insert_row ts m0 with Ok (acc', _) => acc' | Err _ => ts end)).
  { destruct (insert_row ts m0) as [[ts' r'] | e] eqn:Ei; [| exact Hr].
    exact (tr_insert _ ts m0 ts' r' Hr Ei). }
  destruct Hm as [-> | Hm]; [| exact (IH _ Hnext m v Hm Hv)].
  assert (Hhead : exists r, In r (ts_rows (match insert_row ts m with
                                          | Ok (acc', _) => acc' | Err _ => ts end))
                            /\ version_is v r = true).
  { assert (Ha : assign_id ts m = (m, ts_next ts))
      by (unfold assign_id; rewrite Hd; reflexivity).
    unfold insert_row. rewrite Ha. destruct (find_clash ts m) as [k |] eqn:Ec; simpl.
    - apply find_clash_some in Ec as [ks [old [Hk [Hold Hc]]]].
      rewrite Hd, schema_migrations_keys in Hk. destruct Hk as [Hk | []].
      injection Hk as _ <-. exists old. split; [exact Hold |].
      unfold clash in Hc. simpl in Hc. rewrite andb_true_r, Hv in Hc. exact Hc.
    - exists m. split; [apply in_or_app; right; left; reflexivity |].
      unfold version_is. rewrite Hv. simpl. apply Z.eqb_refl. }
  destruct Hhead as [r [Hin Hver]]. exists r. split; [| exact Hver].
  exact (insert_ignore_keeps rs _ r Hin).
Qed.

Lemma lookup_snoc_absent {A} (k : string) (a : A) (l : list (string * A)) :
  lookup k l = None -> lookup k (l ++ [(k, a)])%list = Some a.
Proof.
  induction l as [| [k0 b] l IH]; simpl; intros H.
  - rewrite String.eqb_refl. reflexivity.
  - destruct (String.eqb k0 k); [discriminate | exact (IH H)].
Qed.

(** One run of [create_schema_version_table] on a selected database whose
    ledger is [ts0] (an absent ledger is created empty). *)
Lemma create_schema_version_table_run (s : server) (l : list log_entry) (n : string)
  (d : database) (ts0 : tstate) :
  cur_db s = Some (n, d) ->
  lookup "schema_migrations" (db_tables d) = Some ts0 \/
  (lookup "schema_migrations" (db_tables d) = None /\ ts0 = empty_table schema_migrations) ->
  exists s' l' d',
    create_schema_version_table exec_sql (mkPstate s l) = (Ret tt, mkPstate s' l') /\
    cur_db s' = Some (n, d') /\
    lookup "schema_migrations" (db_tables d') = Some (insert_ignore migration_rows ts0).
Proof.
  intros Hcur Hts.
  set (d1 := match lookup "schema_migrations" (db_tables d) with
             | Some _ => d
             | None => with_tables d (db_tables d ++ [("schema_migrations", empty_table schema_migrations)])
             end).
  assert (Hl1 : lookup "schema_migrations" (db_tables d1) = Some ts0).
  { unfold d1. destruct Hts as [Hts | [Hts ->]]; rewrite Hts; [exact Hts |].
    apply lookup_snoc_absent. exact Hts. }
  set (d2 := with_tables d1 (update_at "schema_migrations" (insert_ignore migration_rows) (db_tables d1))).
  assert (E1 : exec_sql (CreateTable schema_migrations) s = Ok (put_db s n d1)).
  { unfold exec_sql, on_cur. rewrite Hcur. unfold d1.
    change (tbl_name schema_migrations) with "schema_migrations".
    destruct (lookup "schema_migrations" (db_tables d)); reflexivity. }
  assert (Hc1 : cur_db (put_db s n d1) = Some (n, d1)) by exact (cur_db_put s n d d1 Hcur).
  assert (E2 : exec_sql (InsertIgnore "schema_migrations" migration_rows) (put_db s n d1)
               = Ok (put_db (put_db s n d1) n d2)).
  { unfold exec_sql, on_cur. rewrite Hc1. unfold on_table. rewrite Hl1. reflexivity. }
  exists (put_db (put_db s n d1) n d2), ((l ++ [LInfo "Schema version tracking ready"])%list), d2.
  split; [| split].
  - unfold create_schema_version_table, bind, execute, info, log. cbn [ps_srv ps_log].
    rewrite E1. cbn [ps_srv ps_log]. rewrite E2. reflexivity.
  - exact (cur_db_put _ n d1 d2 Hc1).
  - unfold d2. simpl. rewrite lookup_update_same, Hl1. reflexivity.
Qed.

Lemma migration_rows_versions (v : Z) :
  1 <= v <= 4 -> exists m, In m migration_rows /\ get m "version" = VInt v.
Proof.
  intros Hv. assert (v = 1 \/ v = 2 \/ v = 3 \/ v = 4) as [-> | [-> | [-> | ->]]] by lia;
    [exists (nth 0 migration_rows []) | exists (nth 1 migration_rows [])
    | exists (nth 2 migration_rows []) | exists (nth 3 migration_rows [])];
    (split; [simpl; tauto | reflexivity]).
Qed.

Lemma insert_ignore_ledger_ok (ts : tstate) :
  treach schema_migrations ts -> ledger_ok (insert_ignore migration_rows ts).
Proof.
  intros Hr. split; [apply insert_ignore_treach; exact Hr |].
  intros v Hv. destruct (migration_rows_versions v Hv) as [m [Hm Hmv]].
  exact (insert_ignore_present _ ts Hr m v Hm Hmv).
Qed.

Lemma repeat_create_schema_version_table (k : nat) (s : server) (l : list log_entry)
  (n : string) (d : database) (ts0 : tstate) :
  cur_db s = Some (n, d) -> lookup "schema_migrations" (db_tables d) = Some ts0 ->
  ledger_ok ts0 ->
  exists st d' ts,
    repeat_run k (create_schema_version_table exec_sql) (mkPstate s l) = (Ret tt, st) /\
    cur_db (ps_srv st) = Some (n, d') /\
    lookup "schema_migrations" (db_tables d') = Some ts /\ ledger_ok ts /\
    forall r, In r (ts_rows ts0) -> In r (ts_rows ts).
Proof.
  revert s l d ts0. induction k as [| k IH]; intros s l d ts0 Hcur Hl Hok.
  - exists (mkPstate s l), d, ts0. repeat split; auto; apply Hok.
  - destruct (create_schema_version_table_run s l n d ts0 Hcur (or_introl Hl))
      as [s1 [l1 [d1 [Hrun [Hc1 Hl1]]]]].
    destruct (IH s1 l1 d1 _ Hc1 Hl1 (insert_ignore_ledger_ok ts0 (proj1 Hok)))
      as [st [d' [ts [Hrest [Hc' [Hl' [Hok' Hkeep]]]]]]].
    exists st, d', ts. split; [| split; [exact Hc' | split; [exact Hl' | split; [exact Hok' |]]]].
    + change (bind (create_schema_version_table exec_sql)
                   (fun _ => repeat_run k (create_schema_version_table exec_sql))
                   (mkPstate s l) = (Ret tt, st)).
      unfold bind. rewrite Hrun. exact Hrest.
    + intros r Hr. apply Hkeep. apply insert_ignore_keeps. exact Hr.
Qed.

Lemma version_is_clash (v : Z) (a b : row) :
  version_is v a = true -> version_is v b = true -> clash ["version"] a b = true.
Proof.
  unfold version_is, clash. intros Ha Hb.
  apply sql_eq_eq in Ha. apply sql_eq_eq in Hb. simpl. rewrite Ha, Hb. simpl.
  rewrite Z.eqb_refl. reflexivity.
Qed.

(** C10: [version] is the only unique key of [schema_migrations], and
    however many times [create_schema_version_table] runs (at least once)
    on a selected database whose ledger is absent or reachable, every run
    succeeds, versions 1 to 4 are each held by exactly one row, and every
    row already in the ledger, description included, is still there. *)
Theorem schema_migrations_idempotent (k : nat) (s : server) (n : string) (d : database) :
  cur_db s = Some (n, d) ->
  match lookup "schema_migrations" (db_tables d) with
  | Some ts0 => treach schema_migrations ts0
  | None => True
  end ->
  unique_keys schema_migrations = [("PRIMARY", ["version"])] /\
  exists st d' ts,
    repeat_run (S k) (create_schema_version_table exec_sql) (mkPstate s []) = (Ret tt, st) /\
    cur_db (ps_srv st) = Some (n, d') /\
    lookup "schema_migrations" (db_tables d') = Some ts /\
    (forall v, 1 <= v <= 4 -> length (filter (version_is v) (ts_rows ts)) = 1%nat) /\
    (forall ts0 r, lookup "schema_migrations" (db_tables d) = Some ts0 ->
                   In r (ts_rows ts0) -> In r (ts_rows ts)).
Proof.
  intros Hcur Hpre. split; [exact schema_migrations_keys |].
  set (ts0 := match lookup "schema_migrations" (db_tables d) with
              | Some ts0 => ts0 | None => empty_table schema_migrations end).
  assert (Hts0 : lookup "schema_migrations" (db_tables d) = Some ts0 \/
                 (lookup "schema_migrations" (db_tables d) = None /\ ts0 = empty_table schema_migrations))
    by (unfold ts0; destruct (lookup "schema_migrations" (db_tables d)); auto).
  assert (Hr0 : treach schema_migrations ts0)
    by (unfold ts0; destruct (lookup "schema_migrations" (db_tables d)); [exact Hpre | constructor]).
  destruct (create_schema_version_table_run s [] n d ts0 Hcur Hts0)
    as [s1 [l1 [d1 [Hrun [Hc1 Hl1]]]]].
  destruct (repeat_create_schema_version_table k s1 l1 n d1 _ Hc1 Hl1 (insert_ignore_ledger_ok ts0 Hr0))
    as [st [d' [ts [Hrest [Hc' [Hl' [[Hreach Hpres] Hkeep]]]]]]].
  exists st, d', ts. split; [| split; [exact Hc' | split; [exact Hl' | split]]].
  - change (bind (create_schema_version_table exec_sql)
                 (fun _ => repeat_run k (create_schema_version_table exec_sql))
                 (mkPstate s []) = (Ret tt, st)).
    unfold bind. rewrite Hrun. exact Hrest.
  - intros v Hv.
    assert (Hle : (length (filter (version_is v) (ts_rows ts)) <= 1)%nat).
    { apply (treach_key_at_most_one schema_migrations ts ("PRIMARY", ["version"])); [exact Hreach | left; reflexivity |].
      intros a b Ha Hb. exact (version_is_clash v a b Ha Hb). }
    destruct (Hpres v Hv) as [r [Hin Hver]].
    assert (Hf : In r (filter (version_is v) (ts_rows ts))) by (apply filter_In; auto).
    destruct (filter (version_is v) (ts_rows ts)) as [| x [| y l]]; simpl in *; [contradiction | reflexivity | lia].
  - intros ts1 r Hl Hr. apply Hkeep. apply insert_ignore_keeps.
    unfold ts0 in *. rewrite Hl in *. exact Hr.
Qed.

Lemma schema_migrations_idempotent_witness :
  cur_db (mkServer [("youtube_kol_db", mkDatabase [] [])] (Some "youtube_kol_db") 0)
    = Some ("youtube_kol_db", mkDatabase [] []) /\
  (unique_keys schema_migrations = [("PRIMARY", ["version"])] /\
   exists st d' ts,
    repeat_run 3 (create_schema_version_table exec_sql)
      (mkPstate (mkServer [("youtube_kol_db", mkDatabase [] [])] (Some "youtube_kol_db") 0) [])
      = (Ret tt, st) /\
    cur_db (ps_srv st) = Some ("youtube_kol_db", d') /\
    lookup "schema_migrations" (db_tables d') = Some ts /\
    (forall v, 1 <= v <= 4 -> length (filter (version_is v) (ts_rows ts)) = 1%nat) /\
    (forall ts0 r, lookup "schema_migrations" (db_tables (mkDatabase [] [])) = Some ts0 ->
                   In r (ts_rows ts0) -> In r (ts_rows ts))).
Proof.
  split; [reflexivity |].
  apply (schema_migrations_idempotent 2 _ "youtube_kol_db" (mkDatabase [] [])); [reflexivity | exact I].
Defined.

(** ** Re-running the bootstrap *)

(** C3: re-running the tool is not idempotent on the seed data.  The only
    unique key of [product_config] is its AUTO_INCREMENT [id], so the
    [ON DUPLICATE KEY UPDATE] of [seed_initial_data] never fires: from a
    fresh server the first run leaves one seed row and a second run, also
    reporting success, leaves two, while the migration ledger is unchanged. *)
Theorem bootstrap_rerun_duplicates_seed :
  unique_keys product_config = [("PRIMARY", ["id"])] /\
  let '(z1, s1) := run_main fresh_server in
  let '(z2, s2) := run_main s1 in
  z1 = 0 /\ z2 = 0 /\
  length (rows_of s1 "product_config") = 1%nat /\
  length (rows_of s2 "product_config") = 2%nat /\
  rows_of s2 "schema_migrations" = rows_of s1 "schema_migrations".
Proof. vm_compute. repeat split; reflexivity. Qed.

(* ================================================================== *)
(** * Further properties of the bootstrap *)

(** ** Python's [in] on strings *)

Lemma prefixb_spec (p s : string) : prefixb p s = true <-> exists b, s = (p ++ b)%string.
Proof.
  revert s. induction p as [| a p IH]; intros s; simpl.
  - split; [intros _; exists s; reflexivity | reflexivity].
  - destruct s as [| b s]; simpl.
    + split; [discriminate | intros [x Hx]; discriminate].
    + rewrite andb_true_iff, IH. split.
      * intros [Hab [x Hx]]. apply Ascii.eqb_eq in Hab. subst. exists x; reflexivity.
      * intros [x Hx]. injection Hx as -> ->. split; [apply Ascii.eqb_refl | exists x; reflexivity].
Qed.

Lemma contains_spec (p s : string) :
  contains p s = true <-> exists a b, s = (a ++ p ++ b)%string.
Proof.
  induction s as [| c s IH]; simpl; rewrite orb_true_iff, prefixb_spec.
  - split.
    + intros [[b Hb] | Hf]; [exists EmptyString, b; exact Hb | discriminate].
    + intros [a [b Hab]]. left. destruct a; [exists b; exact Hab | discriminate].
  - rewrite IH. split.
    + intros [[b Hb] | [a [b Hab]]].
      * exists EmptyString, b. exact Hb.
      * exists (String c a), b. rewrite Hab. reflexivity.
    + intros [a [b Hab]]. destruct a as [| c' a].
      * left. exists b. exact Hab.
      * right. injection Hab as -> Hs. exists a, b. exact Hs.
Qed.



(** ** [create_tables] stops at the first refused table *)

Lemma create_tables_loop (exec : stmt -> server -> sql_result server)
  (l : list table_def) (st : pstate) :
  match for_each l (fun t =>
          try_except
            (execute exec (CreateTable t) ;; info ("Table '" ++ tbl_name t ++ "' created"))
            (fun e => error ("Failed to create table '" ++ tbl_name t ++ "': " ++ e) ;; raise e)) st with
  | (Ret _, st') =>
      ps_log st' = (ps_log st ++ map (fun t => LInfo ("Table '" ++ tbl_name t ++ "' created")) l)%list
  | (Raise e, st') =>
      exists pre t post, l = (pre ++ t :: post)%list /\
        exec (CreateTable t) (ps_srv st') = Err e /\
        ps_log st' = (ps_log st ++ map (fun t => LInfo ("Table '" ++ tbl_name t ++ "' created")) pre
                      ++ [LError ("Failed to create table '" ++ tbl_name t ++ "': " ++ e)])%list
  end.
Proof.
  revert st. induction l as [| x l IH]; intros st.
  - simpl. rewrite app_nil_r. reflexivity.
  - cbn [for_each]. unfold bind at 1, try_except at 1, execute at 1, bind at 1.
    destruct (exec (CreateTable x) (ps_srv st)) as [s1 | e] eqn:E.
    + unfold info, log. cbn [ps_srv ps_log].
      specialize (IH (mkPstate s1 (ps_log st ++ [LInfo ("Table '" ++ tbl_name x ++ "' created")]))).
      destruct (for_each l _ _) as [[[] | e] st'].
      * rewrite IH. cbn [ps_log map]. rewrite <- app_assoc. reflexivity.
      * destruct IH as [pre [t [post [Hl [He Hlog]]]]].
        exists (x :: pre), t, post. split; [rewrite Hl; reflexivity | split; [exact He |]].
        rewrite Hlog. cbn [ps_log map]. rewrite <- !app_assoc. reflexivity.
    + cbn. exists [], x, l. split; [reflexivity | split; [exact E | reflexivity]].
Qed.

(** X3: [create_tables] either creates every table in order, logging one
    line per table, or stops at the first table the server refuses: the
    tables before it were logged as created, the refusal is logged with the
    table's name and re-raised, and no later table is attempted (the state
    is the one the refusal left). *)
Theorem create_tables_fail_fast (exec : stmt -> server -> sql_result server) (st : pstate) :
  match create_tables exec st with
  | (Ret _, st') =>
      ps_log st' = (ps_log st ++ map (fun t => LInfo ("Table '" ++ tbl_name t ++ "' created")) tables)%list
  | (Raise e, st') =>
      exists pre t post, tables = (pre ++ t :: post)%list /\
        exec (CreateTable t) (ps_srv st') = Err e /\
        ps_log st' = (ps_log st ++ map (fun t => LInfo ("Table '" ++ tbl_name t ++ "' created")) pre
                      ++ [LError ("Failed to create table '" ++ tbl_name t ++ "': " ++ e)])%list
  end.
Proof. exact (create_tables_loop exec tables st). Qed.

(** ** [main] when the database cannot be created *)



(** ** [main]'s exit status and its completion line *)

Lemma no_success_snoc (l : list log_entry) (x : log_entry) :
  no_success l -> x <> LInfo success_msg -> no_success (l ++ [x])%list.
Proof.
  intros Hl Hx Hin. apply in_app_or in Hin as [Hin | [Hin | []]]; [exact (Hl Hin) | exact (Hx Hin)].
Qed.

Lemma quiet_ret {A} (a : A) : quiet (ret a).
Proof. intros st H. exact H. Qed.

Lemma quiet_raise {A} (e : string) : quiet (@raise A e).
Proof. intros st H. exact H. Qed.

Lemma quiet_log (x : log_entry) : x <> LInfo success_msg -> quiet (log x).
Proof. intros Hx st H. apply no_success_snoc; assumption. Qed.

Lemma quiet_execute (exec : stmt -> server -> sql_result server) (s : stmt) : quiet (execute exec s).
Proof. intros st H. unfold execute. destruct (exec s (ps_srv st)); exact H. Qed.

Lemma quiet_bind {A B} (m : M A) (k : A -> M B) :
  quiet m -> (forall a, quiet (k a)) -> quiet (bind m k).
Proof.
  intros Hm Hk st H. unfold bind. specialize (Hm st H).
  destruct (m st) as [[a | e] st']; [apply Hk |]; exact Hm.
Qed.

Lemma quiet_try {A} (m : M A) (h : string -> M A) :
  quiet m -> (forall e, quiet (h e)) -> quiet (try_except m h).
Proof.
  intros Hm Hh st H. unfold try_except. specialize (Hm st H).
  destruct (m st) as [[a | e] st']; [| apply Hh]; exact Hm.
Qed.

Lemma quiet_for_each {A} (l : list A) (body : A -> M unit) :
  (forall x, quiet (body x)) -> quiet (for_each l body).
Proof.
  intros Hb. induction l as [| x l IH]; simpl; [apply quiet_ret |].
  apply quiet_bind; [apply Hb | intros _; exact IH].
Qed.

Create HintDb quiet.
#[local] Hint Resolve quiet_ret quiet_raise quiet_execute quiet_bind quiet_try quiet_for_each : quiet.
#[local] Hint Extern 1 (quiet (log _)) => apply quiet_log; discriminate : quiet.
#[local] Hint Extern 1 (quiet (info _)) => apply quiet_log; discriminate : quiet.
#[local] Hint Extern 1 (quiet (warning _)) => apply quiet_log; discriminate : quiet.
#[local] Hint Extern 1 (quiet (error _)) => apply quiet_log; discriminate : quiet.
Ltac destruct_one_if := match goal with |- quiet (if ?b then _ else _) => destruct b end.
#[local] Hint Extern 1 (quiet (if _ then _ else _)) => destruct_one_if : quiet.

Lemma quiet_create_database (exec : stmt -> server -> sql_result server) (db : string) :
  quiet (create_database exec db).
Proof. unfold create_database. eauto 8 with quiet. Qed.

Lemma quiet_create_tables (exec : stmt -> server -> sql_result server) : quiet (create_tables exec).
Proof. unfold create_tables. eauto 8 with quiet. Qed.

Lemma quiet_add_foreign_keys (exec : stmt -> server -> sql_result server) :
  quiet (add_foreign_keys exec).
Proof.
  unfold add_foreign_keys. apply quiet_for_each. intros fk. unfold add_foreign_key.
  apply quiet_try; [eauto 6 with quiet |].
  intros e. destruct (negb (contains "Duplicate" e)); eauto with quiet.
Qed.

Lemma quiet_seed_initial_data (exec : stmt -> server -> sql_result server) :
  quiet (seed_initial_data exec).
Proof. unfold seed_initial_data. eauto 8 with quiet. Qed.

Lemma quiet_create_schema_version_table (exec : stmt -> server -> sql_result server) :
  quiet (create_schema_version_table exec).
Proof. unfold create_schema_version_table. eauto 8 with quiet. Qed.

Lemma bind_step {A B} (m : M A) (k : A -> M B) (Q : outcome B -> pstate -> Prop) (st : pstate) :
  quiet m -> no_success (ps_log st) ->
  (forall e st', no_success (ps_log st') -> Q (Raise e) st') ->
  (forall a st', no_success (ps_log st') -> Q (fst (k a st')) (snd (k a st'))) ->
  Q (fst (bind m k st)) (snd (bind m k st)).
Proof.
  intros Hm H Hr Hk. unfold bind. specialize (Hm st H).
  destruct (m st) as [[a | e] st']; simpl in *; auto.
Qed.

Ltac main_step q :=
  apply bind_step; [apply q | assumption
                   | intros ? ? ?; right; eexists; split; [reflexivity | assumption]
                   | intros ? ? ?; cbv beta].


(** ** [create_tables] against the modelled server *)

Lemma lookup_app {A} (k : string) (l1 l2 : list (string * A)) :
  lookup k (l1 ++ l2)%list = match lookup k l1 with Some a => Some a | None => lookup k l2 end.
Proof.
  induction l1 as [| [k0 a] l1 IH]; simpl; [reflexivity |].
  destruct (String.eqb k0 k); [reflexivity | exact IH].
Qed.

Lemma create_tables_exec_sql_loop (l : list table_def) (s : server) (lg : list log_entry)
  (n : string) (d : database) :
  cur_db s = Some (n, d) ->
  exists s' d',
    for_each l (fun t =>
      try_except
        (execute exec_sql (CreateTable t) ;; info ("Table '" ++ tbl_name t ++ "' created"))
        (fun e => error ("Failed to create table '" ++ tbl_name t ++ "': " ++ e) ;; raise e))
      (mkPstate s lg)
    = (Ret tt, mkPstate s' (lg ++ map (fun t => LInfo ("Table '" ++ tbl_name t ++ "' created")) l)%list) /\
    cur_db s' = Some (n, d') /\ db_fks d' = db_fks d /\
    forall name, lookup name (db_tables d') =
                 match lookup name (db_tables d) with
                 | Some ts => Some ts
                 | None => lookup name (fresh_tables l)
                 end.
Proof.
  revert s lg d. induction l as [| x l IH]; intros s lg d Hcur.
  - exists s, d. split; [simpl; rewrite app_nil_r; reflexivity |].
    split; [exact Hcur | split; [reflexivity |]].
    intros name. simpl. destruct (lookup name (db_tables d)); reflexivity.
  - set (d1 := match lookup (tbl_name x) (db_tables d) with
               | Some _ => d
               | None => with_tables d (db_tables d ++ [(tbl_name x, empty_table x)])
               end).
    assert (E1 : exec_sql (CreateTable x) s = Ok (put_db s n d1)).
    { unfold exec_sql, on_cur. rewrite Hcur. unfold d1.
      destruct (lookup (tbl_name x) (db_tables d)); reflexivity. }
    destruct (IH (put_db s n d1) (lg ++ [LInfo ("Table '" ++ tbl_name x ++ "' created")])%list d1
                 (cur_db_put s n d d1 Hcur)) as [s' [d' [Hrun [Hc' [Hfk Hlk]]]]].
    exists s', d'. split; [| split; [exact Hc' | split]].
    + cbn [for_each]. unfold bind at 1, try_except at 1, bind at 1, execute at 1.
      cbn [ps_srv ps_log]. rewrite E1. unfold info at 1, log at 1. cbn [ps_srv ps_log].
      rewrite Hrun. rewrite <- app_assoc. reflexivity.
    + rewrite Hfk. unfold d1. destruct (lookup (tbl_name x) (db_tables d)); reflexivity.
    + intros name. rewrite Hlk. unfold d1. cbn [fresh_tables map lookup fst snd].
      fold (fresh_tables l).
      destruct (lookup (tbl_name x) (db_tables d)) as [tx |] eqn:Ex.
      * destruct (lookup name (db_tables d)) as [ts |] eqn:En; [reflexivity |].
        destruct (String.eqb (tbl_name x) name) eqn:Eq; [| reflexivity].
        apply String.eqb_eq in Eq. subst name. congruence.
      * cbn [db_tables with_tables]. rewrite lookup_app.
        destruct (lookup name (db_tables d)) as [ts |]; [reflexivity |].
        simpl. destruct (String.eqb (tbl_name x) name); reflexivity.
Qed.

(** X4: with a database selected, [create_tables] never fails on the
    server: every table of the schema that is missing is created empty,
    every table already present (and any other table) is left exactly as it
    was, and the foreign keys are untouched ([CREATE TABLE IF NOT EXISTS]). *)
Theorem create_tables_if_not_exists (s : server) (lg : list log_entry) (n : string) (d : database) :
  cur_db s = Some (n, d) ->
  exists s' d',
    create_tables exec_sql (mkPstate s lg)
    = (Ret tt, mkPstate s' (lg ++ map (fun t => LInfo ("Table '" ++ tbl_name t ++ "' created")) tables)%list) /\
    cur_db s' = Some (n, d') /\ db_fks d' = db_fks d /\
    forall name, lookup name (db_tables d') =
                 match lookup name (db_tables d) with
                 | Some ts => Some ts
                 | None => lookup name (fresh_tables tables)
                 end.
Proof. exact (create_tables_exec_sql_loop tables s lg n d). Qed.

Lemma create_tables_if_not_exists_witness :
  cur_db (mkServer [("shop", mkDatabase [("channels", empty_table channels)] [])] (Some "shop") 0)
    = Some ("shop", mkDatabase [("channels", empty_table channels)] []) /\
  exists s' d',
    create_tables exec_sql
      (mkPstate (mkServer [("shop", mkDatabase [("channels", empty_table channels)] [])] (Some "shop") 0) [])
    = (Ret tt, mkPstate s' ([] ++ map (fun t => LInfo ("Table '" ++ tbl_name t ++ "' created")) tables)%list) /\
    cur_db s' = Some ("shop", d') /\ db_fks d' = db_fks (mkDatabase [("channels", empty_table channels)] []) /\
    forall name, lookup name (db_tables d') =
                 match lookup name (db_tables (mkDatabase [("channels", empty_table channels)] [])) with
                 | Some ts => Some ts
                 | None => lookup name (fresh_tables tables)
                 end.
Proof.
  split; [reflexivity |].
  apply create_tables_if_not_exists. reflexivity.
Defined.

(** ** Re-running [add_foreign_keys] against the modelled server *)

Lemma fk_ext_refl (s : server) : fk_ext s s.
Proof.
  split; [reflexivity |]. intros n d H. exists d. split; [exact H | split; [reflexivity | apply incl_refl]].
Qed.

Lemma fk_ext_trans (s1 s2 s3 : server) : fk_ext s1 s2 -> fk_ext s2 s3 -> fk_ext s1 s3.
Proof.
  intros [N12 S12] [N23 S23]. split.
  - intros H. rewrite (N23 (eq_trans (f_equal cur_db (N12 H)) H)). exact (N12 H).
  - intros n d H. destruct (S12 n d H) as [d2 [H2 [T2 I2]]].
    destruct (S23 n d2 H2) as [d3 [H3 [T3 I3]]].
    exists d3. split; [exact H3 | split; [congruence | eapply incl_tran; eassumption]].
Qed.

Lemma add_fk_ok (fk : fkey) (s s' : server) :
  exec_sql (AddForeignKey fk) s = Ok s' ->
  fk_ext s s' /\ exists e, exec_sql (AddForeignKey fk) s' = Err e.
Proof.
  unfold exec_sql, on_cur. destruct (cur_db s) as [[n d] |] eqn:Hc; [| discriminate].
  unfold add_fk.
  destruct (lookup (fk_child fk) (db_tables d)) as [c |] eqn:Ec; [| discriminate].
  destruct (lookup (fk_parent fk) (db_tables d)) as [p |] eqn:Ep; [| discriminate].
  destruct (existsb _ (db_fks d)) eqn:Ex; [discriminate |].
  destruct (fk_holds fk (db_tables d)); [| discriminate].
  intros H. injection H as <-.
  pose proof (cur_db_put s n d (mkDatabase (db_tables d) (db_fks d ++ [fk])) Hc) as Hc'.
  split.
  - split; [congruence |]. intros n0 d0 H0. rewrite Hc in H0. injection H0 as <- <-.
    eexists. split; [exact Hc' | split; [reflexivity | apply incl_appl, incl_refl]].
  - rewrite Hc'. cbn [db_tables db_fks]. rewrite Ec, Ep, existsb_app. simpl.
    rewrite String.eqb_refl, orb_true_r. eexists. reflexivity.
Qed.

Lemma add_fk_err_mono (fk : fkey) (s s' : server) (e : string) :
  exec_sql (AddForeignKey fk) s = Err e -> fk_ext s s' ->
  exists e', exec_sql (AddForeignKey fk) s' = Err e'.
Proof.
  intros H [N S]. destruct (cur_db s) as [[n d] |] eqn:Hc; [| rewrite (N eq_refl); eauto].
  destruct (S n d eq_refl) as [d' [Hc' [Ht Hi]]].
  unfold exec_sql, on_cur in *. rewrite Hc in H. rewrite Hc'.
  unfold add_fk in *. rewrite Ht.
  destruct (lookup (fk_child fk) (db_tables d)); [| eauto].
  destruct (lookup (fk_parent fk) (db_tables d)); [| eauto].
  destruct (existsb (fun f => String.eqb (fk_name f) (fk_name fk)) (db_fks d')) eqn:E'; [eauto |].
  assert (E : existsb (fun f => String.eqb (fk_name f) (fk_name fk)) (db_fks d) = false).
  { destruct (existsb _ (db_fks d)) eqn:E; [| reflexivity].
    apply existsb_exists in E as [f [Hf Hn]].
    assert (Hx : existsb (fun f => String.eqb (fk_name f) (fk_name fk)) (db_fks d') = true)
      by (apply existsb_exists; exists f; split; [apply Hi; exact Hf | exact Hn]).
    congruence. }
  rewrite E in H. destruct (fk_holds fk (db_tables d)); [discriminate | eauto].
Qed.

Lemma add_foreign_key_exec_sql (fk : fkey) (st : pstate) :
  exists l', add_foreign_key exec_sql fk st =
    (Ret tt, mkPstate (match exec_sql (AddForeignKey fk) (ps_srv st) with
                       | Ok s' => s' | Err _ => ps_srv st end) l').
Proof.
  unfold add_foreign_key, try_except, bind, execute.
  destruct (exec_sql (AddForeignKey fk) (ps_srv st)) as [s' | e]; [eexists; reflexivity |].
  destruct (negb (contains "Duplicate" e)); [eexists; reflexivity |].
  destruct st as [s0 l0]. exists l0. reflexivity.
Qed.

Lemma add_foreign_keys_exec_sql_loop (l : list fkey) (st : pstate) :
  exists st', for_each l (add_foreign_key exec_sql) st = (Ret tt, st') /\
    fk_ext (ps_srv st) (ps_srv st') /\
    forall fk, In fk l -> exists e, exec_sql (AddForeignKey fk) (ps_srv st') = Err e.
Proof.
  revert st. induction l as [| x l IH]; intros st.
  - exists st. split; [reflexivity | split; [apply fk_ext_refl | intros fk []]].
  - cbn [for_each]. destruct (add_foreign_key_exec_sql x st) as [l1 Hx].
    unfold bind at 1. rewrite Hx.
    destruct (IH (mkPstate (match exec_sql (AddForeignKey x) (ps_srv st) with
                            | Ok s' => s' | Err _ => ps_srv st end) l1))
      as [st' [Hrun [Hext Herr]]].
    exists st'. split; [exact Hrun |]. cbn [ps_srv] in Hext.
    destruct (exec_sql (AddForeignKey x) (ps_srv st)) as [s1 | e] eqn:E.
    + destruct (add_fk_ok x _ _ E) as [Hx1 [e1 He1]].
      split; [exact (fk_ext_trans _ _ _ Hx1 Hext) |].
      intros fk [<- | Hfk]; [exact (add_fk_err_mono _ _ _ _ He1 Hext) | exact (Herr fk Hfk)].
    + split; [exact Hext |].
      intros fk [<- | Hfk]; [exact (add_fk_err_mono _ _ _ _ E Hext) | exact (Herr fk Hfk)].
Qed.

Lemma add_foreign_keys_exec_sql_stable (l : list fkey) (st : pstate) :
  (forall fk, In fk l -> exists e, exec_sql (AddForeignKey fk) (ps_srv st) = Err e) ->
  ps_srv (snd (for_each l (add_foreign_key exec_sql) st)) = ps_srv st.
Proof.
  revert st. induction l as [| x l IH]; intros st Herr; [reflexivity |].
  cbn [for_each]. destruct (add_foreign_key_exec_sql x st) as [l1 Hx].
  unfold bind at 1. rewrite Hx.
  destruct (Herr x (or_introl eq_refl)) as [e E]. rewrite E. rewrite IH; [reflexivity |].
  intros fk Hfk. exact (Herr fk (or_intror Hfk)).
Qed.

(** X6: against the modelled server, a second run of [add_foreign_keys]
    changes nothing on the server, whatever state the first run started
    from: every constraint either was installed by the first run (and is now
    refused as a duplicate) or is refused for a reason the first run left
    in place. *)
Theorem add_foreign_keys_rerun_noop (s : server) (lg : list log_entry) :
  ps_srv (snd (add_foreign_keys exec_sql (snd (add_foreign_keys exec_sql (mkPstate s lg)))))
  = ps_srv (snd (add_foreign_keys exec_sql (mkPstate s lg))).
Proof.
  unfold add_foreign_keys.
  destruct (add_foreign_keys_exec_sql_loop constraints (mkPstate s lg)) as [st' [Hrun [_ Herr]]].
  rewrite Hrun. cbn [snd]. apply add_foreign_keys_exec_sql_stable. exact Herr.
Qed.

(** ** [seed_initial_data] against the modelled server *)

Lemma product_config_accepts (ts : tstate) (r : row) :
  treach product_config ts -> get r "id" = VNull ->
  insert_row ts r = Ok (mkTstate product_config (ts_rows ts ++ [("id", VInt (ts_next ts)) :: r])%list
                                 (ts_next ts + 1), ("id", VInt (ts_next ts)) :: r).
Proof.
  intros Hr Hid. destruct (treach_wf _ _ Hr) as [Hd [_ Hb]].
  unfold insert_row, assign_id. rewrite Hd.
  assert (Hai : autoinc_col product_config = Some "id") by reflexivity.
  rewrite Hai. cbv beta iota. rewrite Hid.
  destruct (find_clash ts _) as [k |] eqn:Hc; [| reflexivity].
  exfalso. apply find_clash_some in Hc as [ks [old [Hk [Hold Hx]]]].
  rewrite Hd in Hk. simpl in Hk. destruct Hk as [Hk | []]. inversion Hk; subst k ks.
  destruct (Hb "id" Hai old Hold) as [v [Hv Hlt]].
  unfold clash in Hx. simpl in Hx. rewrite Hv in Hx. simpl in Hx.
  rewrite andb_true_r in Hx. apply Z.eqb_eq in Hx. lia.
Qed.

(** X7: on a selected database whose [product_config] table is reachable,
    every run of [seed_initial_data] appends exactly one row, the seed
    values under the next AUTO_INCREMENT id, never updates a stored row,
    and leaves every other table and the foreign keys as they were. *)
Theorem seed_initial_data_appends (s : server) (lg : list log_entry) (n : string)
  (d : database) (ts : tstate) :
  cur_db s = Some (n, d) ->
  lookup "product_config" (db_tables d) = Some ts ->
  treach product_config ts ->
  exists s' d',
    seed_initial_data exec_sql (mkPstate s lg)
      = (Ret tt, mkPstate s' (lg ++ [LInfo "Default product config seeded"])%list) /\
    cur_db s' = Some (n, d') /\ db_fks d' = db_fks d /\
    lookup "product_config" (db_tables d') =
      Some (mkTstate product_config (ts_rows ts ++ [("id", VInt (ts_next ts)) :: seed_row])%list
                     (ts_next ts + 1)) /\
    forall name, name <> "product_config" -> lookup name (db_tables d') = lookup name (db_tables d).
Proof.
  intros Hcur Hl Hr.
  set (d' := with_tables d (update_at "product_config"
                             (insert_on_dup (srv_clock s) seed_row ["updated_at"]) (db_tables d))).
  assert (E1 : exec_sql (InsertOnDupUpdate "product_config" seed_row ["updated_at"]) s
               = Ok (put_db s n d')).
  { unfold exec_sql, on_cur. rewrite Hcur. unfold on_table. rewrite Hl. reflexivity. }
  exists (put_db s n d'), d'. split; [| split; [| split; [reflexivity | split]]].
  - unfold seed_initial_data, try_except, bind, execute, info, log. cbn [ps_srv ps_log].
    rewrite E1. reflexivity.
  - exact (cur_db_put s n d d' Hcur).
  - unfold d'. cbn [db_tables with_tables]. rewrite lookup_update_same, Hl. cbn [option_map].
    unfold insert_on_dup. rewrite (product_config_accepts ts seed_row Hr eq_refl). reflexivity.
  - intros name Hne. unfold d'. cbn [db_tables with_tables].
    apply lookup_update_other. intros He. apply Hne. symmetry. exact He.
Qed.

Lemma seed_initial_data_appends_witness :
  cur_db (mkServer [("shop", mkDatabase [("product_config", empty_table product_config)] [])] (Some "shop") 0)
    = Some ("shop", mkDatabase [("product_config", empty_table product_config)] []) /\
  exists s' d',
    seed_initial_data exec_sql
      (mkPstate (mkServer [("shop", mkDatabase [("product_config", empty_table product_config)] [])]
                          (Some "shop") 0) [])
      = (Ret tt, mkPstate s' ([] ++ [LInfo "Default product config seeded"])%list) /\
    cur_db s' = Some ("shop", d') /\
    db_fks d' = db_fks (mkDatabase [("product_config", empty_table product_config)] []) /\
    lookup "product_config" (db_tables d') =
      Some (mkTstate product_config (ts_rows (empty_table product_config)
                                     ++ [("id", VInt (ts_next (empty_table product_config))) :: seed_row])%list
                     (ts_next (empty_table product_config) + 1)) /\
    forall name, name <> "product_config" ->
      lookup name (db_tables d') =
      lookup name (db_tables (mkDatabase [("product_config", empty_table product_config)] [])).
Proof.
  split; [reflexivity |].
  apply (seed_initial_data_appends _ [] "shop" (mkDatabase [("product_config", empty_table product_config)] [])
           (empty_table product_config)); [reflexivity | reflexivity | apply tr_empty].
Defined.

(** ** [main] against the modelled server *)

Lemma bind_ok {A B} (m : M A) (k : A -> M B) (st : pstate) (a : A) (st' : pstate) :
  m st = (Ret a, st') -> bind m k st = k a st'.
Proof. intros H. unfold bind. rewrite H. reflexivity. Qed.

Lemma info_run (m : string) (st : pstate) :
  info m st = (Ret tt, mkPstate (ps_srv st) (ps_log st ++ [LInfo m])%list).
Proof. reflexivity. Qed.

Lemma lookup_fresh_tables (t : table_def) (l : list table_def) :
  In t l -> lookup (tbl_name t) (fresh_tables l) <> None.
Proof.
  induction l as [| x l IH]; intros Hin; [destruct Hin |].
  cbn [fresh_tables map lookup fst]. fold (fresh_tables l).
  destruct (String.eqb (tbl_name x) (tbl_name t)) eqn:E; [discriminate |].
  destruct Hin as [-> | Hin]; [rewrite String.eqb_refl in E; discriminate | exact (IH Hin)].
Qed.

Lemma seed_initial_data_frame (st : pstate) (n : string) (d : database) (ts : tstate) :
  cur_db (ps_srv st) = Some (n, d) -> lookup "product_config" (db_tables d) = Some ts ->
  exists st' d', seed_initial_data exec_sql st = (Ret tt, st') /\
    cur_db (ps_srv st') = Some (n, d') /\
    (forall name, name <> "product_config" -> lookup name (db_tables d') = lookup name (db_tables d)) /\
    lookup "product_config" (db_tables d') <> None.
Proof.
  intros Hcur Hl. destruct st as [s lg]. cbn [ps_srv] in Hcur.
  set (d' := with_tables d (update_at "product_config"
                             (insert_on_dup (srv_clock s) seed_row ["updated_at"]) (db_tables d))).
  assert (E1 : exec_sql (InsertOnDupUpdate "product_config" seed_row ["updated_at"]) s
               = Ok (put_db s n d')).
  { unfold exec_sql, on_cur. rewrite Hcur. unfold on_table. rewrite Hl. reflexivity. }
  eexists (mkPstate (put_db s n d') _), d'. split; [| split; [| split]].
  - unfold seed_initial_data, try_except, bind, execute, info, log. cbn [ps_srv ps_log].
    rewrite E1. reflexivity.
  - exact (cur_db_put s n d d' Hcur).
  - intros name Hne. unfold d'. cbn [db_tables with_tables].
    apply lookup_update_other. intros He. apply Hne. symmetry. exact He.
  - unfold d'. cbn [db_tables with_tables]. rewrite lookup_update_same, Hl. discriminate.
Qed.

Lemma create_schema_version_table_frame (st : pstate) (n : string) (d : database) :
  cur_db (ps_srv st) = Some (n, d) ->
  exists st' d', create_schema_version_table exec_sql st = (Ret tt, st') /\
    cur_db (ps_srv st') = Some (n, d') /\
    (forall name, name <> "schema_migrations" -> lookup name (db_tables d') = lookup name (db_tables d)) /\
    exists ts, lookup "schema_migrations" (db_tables d') = Some ts /\
      forall ts0, lookup "schema_migrations" (db_tables d) = Some ts0 -> incl (ts_rows ts0) (ts_rows ts).
Proof.
  intros Hcur. destruct st as [s l]. cbn [ps_srv] in Hcur.
  set (ts0 := match lookup "schema_migrations" (db_tables d) with
              | Some t => t | None => empty_table schema_migrations end).
  set (d1 := match lookup "schema_migrations" (db_tables d) with
             | Some _ => d
             | None => with_tables d (db_tables d ++ [("schema_migrations", empty_table schema_migrations)])
             end).
  assert (Hl1 : lookup "schema_migrations" (db_tables d1) = Some ts0).
  { unfold d1, ts0. destruct (lookup "schema_migrations" (db_tables d)) eqn:Hts; [exact Hts |].
    apply lookup_snoc_absent. exact Hts. }
  assert (Hf1 : forall name, name <> "schema_migrations" ->
                lookup name (db_tables d1) = lookup name (db_tables d)).
  { intros name Hne. unfold d1. destruct (lookup "schema_migrations" (db_tables d)); [reflexivity |].
    cbn [db_tables with_tables]. rewrite lookup_app. destruct (lookup name (db_tables d)); [reflexivity |].
    cbn [lookup]. destruct (String.eqb "schema_migrations" name) eqn:E; [| reflexivity].
    apply String.eqb_eq in E. congruence. }
  set (d2 := with_tables d1 (update_at "schema_migrations" (insert_ignore migration_rows) (db_tables d1))).
  assert (E1 : exec_sql (CreateTable schema_migrations) s = Ok (put_db s n d1)).
  { unfold exec_sql, on_cur. rewrite Hcur. unfold d1.
    change (tbl_name schema_migrations) with "schema_migrations".
    destruct (lookup "schema_migrations" (db_tables d)); reflexivity. }
  assert (Hc1 : cur_db (put_db s n d1) = Some (n, d1)) by exact (cur_db_put s n d d1 Hcur).
  assert (E2 : exec_sql (InsertIgnore "schema_migrations" migration_rows) (put_db s n d1)
               = Ok (put_db (put_db s n d1) n d2)).
  { unfold exec_sql, on_cur. rewrite Hc1. unfold on_table. rewrite Hl1. reflexivity. }
  eexists (mkPstate (put_db (put_db s n d1) n d2) _), d2. split; [| split; [| split]].
  - unfold create_schema_version_table, bind, execute, info, log. cbn [ps_srv ps_log].
    rewrite E1. cbn [ps_srv ps_log]. rewrite E2. reflexivity.
  - exact (cur_db_put _ n d1 d2 Hc1).
  - intros name Hne. unfold d2. cbn [db_tables with_tables].
    rewrite lookup_update_other by (intros He; apply Hne; symmetry; exact He). exact (Hf1 name Hne).
  - exists (insert_ignore migration_rows ts0). split.
    + unfold d2. cbn [db_tables with_tables]. rewrite lookup_update_same, Hl1. reflexivity.
    + intros t0 Ht0 r Hr. apply insert_ignore_keeps. unfold ts0. rewrite Ht0. exact Hr.
Qed.


(** ** The installed constraints *)

Lemma NoDup_snoc {A} (l : list A) (a : A) : NoDup l -> ~ In a l -> NoDup (l ++ [a])%list.
Proof.
  induction l as [| x l IH]; intros Hn Ha; simpl; [constructor; [intros [] | constructor] |].
  inversion Hn as [| ? ? Hx Hl]; subst. constructor.
  - intros Hin. apply in_app_or in Hin as [Hin | [Hin | []]]; [contradiction | subst; apply Ha; left; reflexivity].
  - apply IH; [exact Hl | intros Hin; apply Ha; right; exact Hin].
Qed.

Lemma add_fk_ok_shape (fk : fkey) (s s' : server) :
  exec_sql (AddForeignKey fk) s = Ok s' ->
  exists n d, cur_db s = Some (n, d) /\
    cur_db s' = Some (n, mkDatabase (db_tables d) (db_fks d ++ [fk])) /\
    ~ In (fk_name fk) (map fk_name (db_fks d)).
Proof.
  unfold exec_sql, on_cur. destruct (cur_db s) as [[n d] |] eqn:Hc; [| discriminate].
  unfold add_fk.
  destruct (lookup (fk_child fk) (db_tables d)); [| discriminate].
  destruct (lookup (fk_parent fk) (db_tables d)); [| discriminate].
  destruct (existsb _ (db_fks d)) eqn:Ex; [discriminate |].
  destruct (fk_holds fk (db_tables d)); [| discriminate].
  intros H. injection H as <-. exists n, d. split; [reflexivity | split; [exact (cur_db_put _ _ _ _ Hc) |]].
  intros Hin. apply in_map_iff in Hin as [f [Hf Hin]].
  assert (Ht : existsb (fun f => String.eqb (fk_name f) (fk_name fk)) (db_fks d) = true)
    by (apply existsb_exists; exists f; split; [exact Hin | apply String.eqb_eq; exact Hf]).
  congruence.
Qed.

Lemma add_foreign_keys_names_loop (l : list fkey) (st : pstate) (n : string) (d : database) :
  cur_db (ps_srv st) = Some (n, d) -> NoDup (map fk_name (db_fks d)) ->
  exists d', cur_db (ps_srv (snd (for_each l (add_foreign_key exec_sql) st))) = Some (n, d') /\
    NoDup (map fk_name (db_fks d')) /\ incl (db_fks d) (db_fks d') /\
    forall f, In f (db_fks d') -> In f (db_fks d) \/ In f l.
Proof.
  revert st d. induction l as [| x l IH]; intros st d Hc Hn.
  - exists d. split; [exact Hc | split; [exact Hn | split; [apply incl_refl | auto]]].
  - cbn [for_each]. destruct (add_foreign_key_exec_sql x st) as [l1 Hx].
    unfold bind at 1. rewrite Hx.
    destruct (exec_sql (AddForeignKey x) (ps_srv st)) as [s1 | e] eqn:E.
    + destruct (add_fk_ok_shape x _ _ E) as [n0 [d0 [Hc0 [Hc1 Hnot]]]].
      rewrite Hc in Hc0. injection Hc0 as <- <-.
      destruct (IH (mkPstate s1 l1) (mkDatabase (db_tables d) (db_fks d ++ [x])) Hc1)
        as [d' [Hc' [Hn' [Hi' Hf']]]].
      { cbn [db_fks]. rewrite map_app. apply NoDup_snoc; assumption. }
      exists d'. split; [exact Hc' | split; [exact Hn' | split]].
      * intros f Hf. apply Hi'. cbn [db_fks]. apply in_or_app. left; exact Hf.
      * intros f Hf. destruct (Hf' f Hf) as [Hin | Hin]; [| right; right; exact Hin].
        cbn [db_fks] in Hin. apply in_app_or in Hin as [Hin | [<- | []]]; [left; exact Hin | right; left; reflexivity].
    + destruct (IH (mkPstate (ps_srv st) l1) d Hc Hn) as [d' [Hc' [Hn' [Hi' Hf']]]].
      exists d'. split; [exact Hc' | split; [exact Hn' | split; [exact Hi' |]]].
      intros f Hf. destruct (Hf' f Hf) as [Hin | Hin]; [left; exact Hin | right; right; exact Hin].
Qed.

(** X9: against the modelled server, [add_foreign_keys] keeps every
    constraint already declared, adds only constraints of its own list, and
    never installs two constraints of the same name: a run that starts
    without duplicate names ends without them, so no number of runs
    introduces one. *)
Theorem add_foreign_keys_names_unique (st : pstate) (n : string) (d : database) :
  cur_db (ps_srv st) = Some (n, d) -> NoDup (map fk_name (db_fks d)) ->
  exists d', cur_db (ps_srv (snd (add_foreign_keys exec_sql st))) = Some (n, d') /\
    NoDup (map fk_name (db_fks d')) /\ incl (db_fks d) (db_fks d') /\
    forall f, In f (db_fks d') -> In f (db_fks d) \/ In f constraints.
Proof. exact (add_foreign_keys_names_loop constraints st n d). Qed.

Lemma add_foreign_keys_names_unique_witness :
  cur_db (ps_srv (mkPstate (mkServer [("shop", mkDatabase (fresh_tables tables) [])] (Some "shop") 0) []))
    = Some ("shop", mkDatabase (fresh_tables tables) []) /\
  NoDup (map fk_name (db_fks (mkDatabase (fresh_tables tables) []))) /\
  exists d', cur_db (ps_srv (snd (add_foreign_keys exec_sql
               (mkPstate (mkServer [("shop", mkDatabase (fresh_tables tables) [])] (Some "shop") 0) []))))
             = Some ("shop", d') /\
    NoDup (map fk_name (db_fks d')) /\ incl (db_fks (mkDatabase (fresh_tables tables) [])) (db_fks d') /\
    forall f, In f (db_fks d') -> In f (db_fks (mkDatabase (fresh_tables tables) [])) \/ In f constraints.
Proof.
  split; [reflexivity | split; [constructor |]].
  apply add_foreign_keys_names_unique; [reflexivity | constructor].
Defined.
